(** * Try On Quiz (app.js): scoring, branching and ranking

    A shallow embedding of the quiz application of [src/app.js] and the
    verification of its scoring engine, its ranking and its transition
    guard.  The file holds the program twice; the embedding follows the
    first, review-ready variant.  The helpers of section 4 are the same in
    both; the older variant differs in [renderQuestionScreen], which does not
    write [state.currentQuestionId], and in the end of the quiz, which goes
    through [transitionTo].

    Conventions of the embedding.
    - JavaScript numbers are doubles.  Those that the dataset types as
      integers (question ids, rating increments, accumulated ratings, array
      positions) are integer-valued doubles, and [Z] holds their values.
      Comparing two of them is comparing in [Z]; adding two of them is
      [js_add], the sum rounded to the nearest double.
    - The [ratings] object and every [ratingIncrease] object are ordinary
      JavaScript objects: [JsObj] keeps their own properties in the order
      [Object.entries] enumerates them.
    - [questionsById] and [orderIndex] are JavaScript [Map]s that are only
      read through [get]: they are [gmap]s.
    - The module-level variables [DATA], [questionsById], [state] and
      [isTransitioning], the registered [transitionend] listeners, the
      pending timers and the part of the DOM the handlers write are the
      fields of one [World] record, passed explicitly. *)

From Stdlib Require Import Ascii.
From stdpp Require Import base numbers list strings gmap sorting.

Local Open Scope Z_scope.

(** ** Ordinary objects with string keys *)

Module JsObj.

(** Own enumerable properties, in enumeration order. *)
Definition t := list (string * Z).

Definition digit_of (c : Ascii.ascii) : option N :=
  let n := Ascii.N_of_ascii c in
  if ((48 <=? n) && (n <=? 57))%N then Some (n - 48)%N else None.

Fixpoint parse_digits (acc : N) (s : string) : option N :=
  match s with
  | EmptyString => Some acc
  | String c s' =>
      match digit_of c with
      | Some d => parse_digits (10 * acc + d)%N s'
      | None => None
      end
  end.

(** A property key is an array index when it is the canonical decimal
    spelling of an integer between 0 and 2^32 - 2. *)
Definition array_index (k : string) : option N :=
  match k with
  | EmptyString => None
  | String c rest =>
      if decide (c = "0"%char) then
        match rest with EmptyString => Some 0%N | _ => None end
      else
        match parse_digits 0 k with
        | Some n => if (n <=? 4294967294)%N then Some n else None
        | None => None
        end
  end.

(** [o[k]]: [None] is [undefined]. *)
Fixpoint get (o : t) (k : string) : option Z :=
  match o with
  | [] => None
  | (k', v) :: o' => if decide (k' = k) then Some v else get o' k
  end.

(** Assignment to an existing own property keeps its position. *)
Fixpoint update (k : string) (v : Z) (o : t) : t :=
  match o with
  | [] => []
  | (k', v') :: o' =>
      if decide (k' = k) then (k, v) :: o' else (k', v') :: update k v o'
  end.

(** A new array-index key goes among the array-index keys, which come
    first in ascending numeric order. *)
Fixpoint insert_index (n : N) (k : string) (v : Z) (o : t) : t :=
  match o with
  | [] => [(k, v)]
  | (k', v') :: o' =>
      match array_index k' with
      | Some n' =>
          if (n' <? n)%N then (k', v') :: insert_index n k v o'
          else (k, v) :: o
      | None => (k, v) :: o
      end
  end.

(** [o[k] = v]: other new keys are appended in creation order. *)
Definition set (k : string) (v : Z) (o : t) : t :=
  match get o k with
  | Some _ => update k v o
  | None =>
      match array_index k with
      | Some n => insert_index n k v o
      | None => o ++ [(k, v)]
      end
  end.

(** [Object.create(null)] *)
Definition empty : t := [].

(** [Object.keys(o)] and [Object.entries(o)] *)
Definition keys (o : t) : list string := map fst o.
Definition entries (o : t) : list (string * Z) := o.

End JsObj.

(** ** Arrays *)

(** [arr[i]] for a number [i] that is an integer: [None] is [undefined]. *)
Definition js_index {A} (arr : list A) (i : Z) : option A :=
  if i <? 0 then None else nth_error arr (Z.to_nat i).

(** [arr.slice(from, to)] for [0 <= from <= to]. *)
Definition js_slice {A} (from to : nat) (arr : list A) : list A :=
  firstn (to - from) (skipn from arr).

(** [Array.prototype.sort] is a stable sort: elements the comparator
    returns [0] for keep their relative order; [a] goes before [b] when
    [cmp a b < 0].  Insertion from the right is such a sort. *)
Fixpoint js_sort_insert {A} (cmp : A → A → Z) (x : A) (l : list A) : list A :=
  match l with
  | [] => [x]
  | y :: l' => if cmp x y <=? 0 then x :: l else y :: js_sort_insert cmp x l'
  end.

Fixpoint js_sort {A} (cmp : A → A → Z) (l : list A) : list A :=
  match l with
  | [] => []
  | x :: l' => js_sort_insert cmp x (js_sort cmp l')
  end.

(** What the comparator allows: [a] may stand before [b] when
    [cmp a b <= 0]. *)
Definition may_precede {A} (cmp : A → A → Z) (a b : A) : Prop := cmp a b ≤ 0.

(** ** Dataset (data.json) *)

Record Shoe := { shoe_id : string; shoe_name : string }.

(** The [nextQuestion] field of an answer: the key may be missing, or hold
    [null], the empty string or a question id. *)
Inductive NextQuestion :=
| NextMissing
| NextNull
| NextEmptyString
| NextId (n : Z).

Record Answer := {
  answer_copy : string;
  ratingIncrease : option JsObj.t;   (* [None]: key missing or null *)
  nextQuestion : NextQuestion
}.

Record Question := {
  question_id : Z;
  question_copy : string;
  answers : list Answer
}.

Record Dataset := { shoes : list Shoe; questions : list Question }.

(** ** State *)

Inductive Screen := start | quiz | loading | results.

Record State := {
  screen : Screen;
  currentQuestionId : Z;
  ratings : JsObj.t
}.

(** ** Helpers (section 4 of app.js) *)

Definition buildQuestionsMap (qs : list Question) : gmap Z Question :=
  foldl (λ map q, <[question_id q := q]> map) ∅ qs.

Definition createInitialRatings (shoes : list Shoe) : JsObj.t :=
  foldl (λ ratings s, JsObj.set (shoe_id s) 0 ratings) JsObj.empty shoes.

Definition initialState (DATA : Dataset) : State :=
  {| screen := start;
     currentQuestionId := 0;
     ratings := createInitialRatings (shoes DATA) |}.

(** [questionsById.get(id) || null] *)
Definition getQuestion (questionsById : gmap Z Question) (id : Z) : option Question :=
  questionsById !! id.

(** [inc || 0] on a number, then [Number(...)]. *)
Definition number_or_0 (inc : Z) : Z := if inc =? 0 then 0 else inc.

(** [x ?? 0] *)
Definition or_0 (x : option Z) : Z := default 0 x.

(** The double nearest to an integer, the one with the even significand on
    a tie.  Up to 2^53 in magnitude every integer is a double; beyond, a
    double has 53 significant bits, so the low bits are rounded away. *)
Definition round_binary64 (z : Z) : Z :=
  let a := Z.abs z in
  if a <=? 2 ^ 53 then z
  else
    let e := Z.log2 a - 52 in                (* the bits that do not fit *)
    let q := Z.shiftr a e in                 (* the 53 bits that do *)
    let r := a - Z.shiftl q e in
    let half := Z.shiftl 1 (e - 1) in
    let q' :=
      if r <? half then q
      else if half <? r then q + 1
      else if Z.even q then q else q + 1 in
    Z.sgn z * Z.shiftl q' e.

(** [x + y] on two integer-valued doubles whose sum is finite: the sum,
    rounded.  (A sum of magnitude 2^1024 - 2^970 or more is Infinity in the
    program; [Z] has no value for it.) *)
Definition js_add (x y : Z) : Z := round_binary64 (x + y).

(** The integers on which the arithmetic of doubles is that of [Z]. *)
Definition safe_integer (z : Z) : Prop := Z.abs z ≤ 2 ^ 53.

(** The integers that round to a finite double. *)
Definition finite_double (z : Z) : Prop := Z.abs z < 2 ^ 1024 - 2 ^ 970.

Definition applyRatingIncrease (ratingIncrease : option JsObj.t) (ratings : JsObj.t)
  : JsObj.t :=
  match ratingIncrease with
  | None => ratings
  | Some inc =>
      foldl (λ ratings '(shoeId, inc),
               JsObj.set shoeId
                         (js_add (or_0 (JsObj.get ratings shoeId)) (number_or_0 inc))
                         ratings)
            ratings (JsObj.entries inc)
  end.

(** A shoe with its rating: [{ ...s, rating }]. *)
Record RankedShoe := {
  ranked_id : string;
  ranked_name : string;
  rating : Z
}.

(** [new Map(DATA.shoes.map((s, i) => [s.id, i]))] *)
Definition orderIndexOf (shoes : list Shoe) : gmap string Z :=
  foldl (λ m '(i, s), <[shoe_id s := Z.of_nat i]> m) ∅ (imap (λ i s, (i, s)) shoes).

Definition withRating (ratings : JsObj.t) (s : Shoe) : RankedShoe :=
  {| ranked_id := shoe_id s;
     ranked_name := shoe_name s;
     rating := or_0 (JsObj.get ratings (shoe_id s)) |}.

Definition compareRanked (orderIndex : gmap string Z) (a b : RankedShoe) : Z :=
  if decide (rating b ≠ rating a) then rating b - rating a
  else or_0 (orderIndex !! ranked_id a) - or_0 (orderIndex !! ranked_id b).

Definition rankedShoes (DATA : Dataset) (state : State) : list RankedShoe :=
  let orderIndex := orderIndexOf (shoes DATA) in
  js_sort (compareRanked orderIndex)
          (map (withRating (ratings state)) (shoes DATA)).

(** ** The page: listeners, timers and the DOM the handlers write *)

(** The closures handed to [transitionTo] and [fadeQuizContentAndUpdate]. *)
Inductive Update :=
| quizUpdate                        (* of [startQuiz] and [restartQuiz] *)
| homeUpdate                        (* of [goToStartScreen] *)
| questionUpdate (next : Z).        (* of [handleAnswerClick] *)

(** [transitionend] listeners on [stageEl] and on [quizContentEl]. *)
Inductive StageListener := onOutEnd (updateFn : Update) | onInEnd.
Inductive QuizListener := onFadeOutEnd (updateFn : Update) | onFadeInEnd.

(** The only timer of the program: the 900 ms wait on the loading screen. *)
Inductive Timer := resultsTimer.

#[global] Instance Update_eq_dec : EqDecision Update.
Proof. solve_decision. Defined.
#[global] Instance StageListener_eq_dec : EqDecision StageListener.
Proof. solve_decision. Defined.
#[global] Instance QuizListener_eq_dec : EqDecision QuizListener.
Proof. solve_decision. Defined.
#[global] Instance Screen_eq_dec : EqDecision Screen.
Proof. solve_decision. Defined.

Record AnswerButton := {
  button_text : string;
  data_qid : Z;
  data_aindex : Z
}.

(** The summary line of the results screen, by the names it mentions. *)
Inductive Summary :=
| summaryTwo (first second : string)
| summaryOne (name : string)
| summaryEmpty.

Record Dom := {
  visibleScreen : Screen;            (* the one screen without [is-hidden] *)
  stage_is_out : bool;               (* class [is-out] on the stage *)
  quiz_is_fading : bool;             (* class [is-fading] on the quiz content *)
  questionText : string;
  answerButtons : list AnswerButton;
  summaryText : Summary;
  recommendedSlot : list RankedShoe;
  similarGrid : list RankedShoe
}.

Record World := {
  DATA : Dataset;
  questionsById : gmap Z Question;
  state : State;
  isTransitioning : bool;
  stageListeners : list StageListener;
  quizListeners : list QuizListener;
  timers : list Timer;
  dom : Dom
}.

(** Assignments to one variable or field. *)
Definition set_state (s : State) (w : World) : World :=
  {| DATA := DATA w; questionsById := questionsById w; state := s;
     isTransitioning := isTransitioning w; stageListeners := stageListeners w;
     quizListeners := quizListeners w; timers := timers w; dom := dom w |}.

Definition set_isTransitioning (b : bool) (w : World) : World :=
  {| DATA := DATA w; questionsById := questionsById w; state := state w;
     isTransitioning := b; stageListeners := stageListeners w;
     quizListeners := quizListeners w; timers := timers w; dom := dom w |}.

Definition set_stageListeners (ls : list StageListener) (w : World) : World :=
  {| DATA := DATA w; questionsById := questionsById w; state := state w;
     isTransitioning := isTransitioning w; stageListeners := ls;
     quizListeners := quizListeners w; timers := timers w; dom := dom w |}.

Definition set_quizListeners (ls : list QuizListener) (w : World) : World :=
  {| DATA := DATA w; questionsById := questionsById w; state := state w;
     isTransitioning := isTransitioning w; stageListeners := stageListeners w;
     quizListeners := ls; timers := timers w; dom := dom w |}.

Definition set_timers (ts : list Timer) (w : World) : World :=
  {| DATA := DATA w; questionsById := questionsById w; state := state w;
     isTransitioning := isTransitioning w; stageListeners := stageListeners w;
     quizListeners := quizListeners w; timers := ts; dom := dom w |}.

Definition set_dom (d : Dom) (w : World) : World :=
  {| DATA := DATA w; questionsById := questionsById w; state := state w;
     isTransitioning := isTransitioning w; stageListeners := stageListeners w;
     quizListeners := quizListeners w; timers := timers w; dom := d |}.

Definition set_screen (s : Screen) (st : State) : State :=
  {| screen := s; currentQuestionId := currentQuestionId st; ratings := ratings st |}.

Definition set_currentQuestionId (id : Z) (st : State) : State :=
  {| screen := screen st; currentQuestionId := id; ratings := ratings st |}.

Definition set_ratings (r : JsObj.t) (st : State) : State :=
  {| screen := screen st; currentQuestionId := currentQuestionId st; ratings := r |}.

Definition set_visibleScreen (s : Screen) (d : Dom) : Dom :=
  {| visibleScreen := s; stage_is_out := stage_is_out d;
     quiz_is_fading := quiz_is_fading d; questionText := questionText d;
     answerButtons := answerButtons d; summaryText := summaryText d;
     recommendedSlot := recommendedSlot d; similarGrid := similarGrid d |}.

Definition set_stage_is_out (b : bool) (d : Dom) : Dom :=
  {| visibleScreen := visibleScreen d; stage_is_out := b;
     quiz_is_fading := quiz_is_fading d; questionText := questionText d;
     answerButtons := answerButtons d; summaryText := summaryText d;
     recommendedSlot := recommendedSlot d; similarGrid := similarGrid d |}.

Definition set_quiz_is_fading (b : bool) (d : Dom) : Dom :=
  {| visibleScreen := visibleScreen d; stage_is_out := stage_is_out d;
     quiz_is_fading := b; questionText := questionText d;
     answerButtons := answerButtons d; summaryText := summaryText d;
     recommendedSlot := recommendedSlot d; similarGrid := similarGrid d |}.

Definition set_question (text : string) (buttons : list AnswerButton) (d : Dom) : Dom :=
  {| visibleScreen := visibleScreen d; stage_is_out := stage_is_out d;
     quiz_is_fading := quiz_is_fading d; questionText := text;
     answerButtons := buttons; summaryText := summaryText d;
     recommendedSlot := recommendedSlot d; similarGrid := similarGrid d |}.

Definition set_results (s : Summary) (rec sim : list RankedShoe) (d : Dom) : Dom :=
  {| visibleScreen := visibleScreen d; stage_is_out := stage_is_out d;
     quiz_is_fading := quiz_is_fading d; questionText := questionText d;
     answerButtons := answerButtons d; summaryText := s;
     recommendedSlot := rec; similarGrid := sim |}.

(** [removeEventListener]: the listener leaves the list once. *)
Fixpoint remove_listener {A} `{EqDecision A} (l : A) (ls : list A) : list A :=
  match ls with
  | [] => []
  | l' :: ls' => if decide (l' = l) then ls' else l' :: remove_listener l ls'
  end.

(** ** Screen visibility (section 5) *)

Definition showOnly (screenName : Screen) (w : World) : World :=
  let w := set_dom (set_visibleScreen screenName (dom w)) w in
  set_state (set_screen screenName (state w)) w.

(** ** Transitions (section 6): the part that runs at the call *)

Definition transitionTo (updateFn : Update) (w : World) : World :=
  if isTransitioning w then w
  else
    let w := set_isTransitioning true w in
    let w := set_dom (set_stage_is_out true (dom w)) w in
    set_stageListeners (stageListeners w ++ [onOutEnd updateFn]) w.

Definition fadeQuizContentAndUpdate (updateFn : Update) (w : World) : World :=
  if decide (screen (state w) ≠ quiz) then transitionTo updateFn w
  else if isTransitioning w then w
  else
    let w := set_isTransitioning true w in
    let w := set_dom (set_quiz_is_fading true (dom w)) w in
    set_quizListeners (quizListeners w ++ [onFadeOutEnd updateFn]) w.

(** ** Rendering (section 7) *)

Definition renderQuestionScreen (questionId : Z) (w : World) : World :=
  match getQuestion (questionsById w) questionId with
  | None => set_dom (set_question "Question not found." [] (dom w)) w
  | Some q =>
      let w := set_state (set_currentQuestionId questionId (state w)) w in
      let buttons :=
        imap (λ idx ans,
                {| button_text := answer_copy ans;
                   data_qid := question_id q;
                   data_aindex := Z.of_nat idx |})
             (answers q) in
      set_dom (set_question (question_copy q) buttons (dom w)) w
  end.

(** The recommended shoe and the similar ones, out of the ranking. *)
Record ResultsView := {
  recommended : option RankedShoe;
  similar : list RankedShoe
}.

Definition selectResults (ranked : list RankedShoe) : ResultsView :=
  {| recommended := js_index ranked 0;
     similar := js_slice 1 3 ranked |}.

Definition renderResultsScreen (w : World) : World :=
  let ranked := rankedShoes (DATA w) (state w) in
  let view := selectResults ranked in
  let summary :=
    match recommended view, similar view with
    | Some r, s :: _ => summaryTwo (ranked_name r) (ranked_name s)
    | Some r, [] => summaryOne (ranked_name r)
    | None, _ => summaryEmpty
    end in
  set_dom (set_results summary (option_list (recommended view)) (similar view) (dom w)) w.

(** ** Actions (section 8) *)

Definition run_update (updateFn : Update) (w : World) : World :=
  match updateFn with
  | quizUpdate =>
      let w := set_state (initialState (DATA w)) w in
      let w := showOnly quiz w in
      renderQuestionScreen 0 w
  | homeUpdate =>
      (* [if (DATA)]: the data is loaded in every world *)
      let w := set_state (initialState (DATA w)) w in
      showOnly start w
  | questionUpdate next => renderQuestionScreen next w
  end.

Definition startQuiz (w : World) : World := transitionTo quizUpdate w.
Definition restartQuiz (w : World) : World := transitionTo quizUpdate w.

(** How a call ends.  The error names are those of the specification; the
    program has no statement that throws. *)
Inductive QuizError := QuestionNotFoundError | AnswerNotFoundError.
Inductive Completion := Returned | Thrown (e : QuizError).

Definition handleAnswerClick (qid aIndex : Z) (w : World) : Completion * World :=
  match getQuestion (questionsById w) qid with
  | None => (Returned, w)
  | Some q =>
      match js_index (answers q) aIndex with
      | None => (Returned, w)
      | Some ans =>
          let w :=
            set_state
              (set_ratings (applyRatingIncrease (ratingIncrease ans) (ratings (state w)))
                           (state w)) w in
          match nextQuestion ans with
          | NextEmptyString | NextNull | NextMissing =>
              if isTransitioning w then (Returned, w)
              else
                let w := set_isTransitioning true w in
                let w := showOnly loading w in
                (Returned, set_timers (timers w ++ [resultsTimer]) w)
          | NextId next =>
              (Returned, fadeQuizContentAndUpdate (questionUpdate next) w)
          end
      end
  end.

Definition goToStartScreen (w : World) : World :=
  if isTransitioning w then w else transitionTo homeUpdate w.

(** ** Events (section 9) and the callbacks that run later *)

Definition run_stage_listener (propertyName : string) (l : StageListener) (w : World)
  : World :=
  if decide (propertyName ≠ "opacity") then w
  else
    let w := set_stageListeners (remove_listener l (stageListeners w)) w in
    match l with
    | onOutEnd updateFn =>
        let w := run_update updateFn w in
        let w := set_dom (set_stage_is_out false (dom w)) w in
        set_stageListeners (stageListeners w ++ [onInEnd]) w
    | onInEnd => set_isTransitioning false w
    end.

Definition run_quiz_listener (propertyName : string) (l : QuizListener) (w : World)
  : World :=
  if decide (propertyName ≠ "opacity") then w
  else
    let w := set_quizListeners (remove_listener l (quizListeners w)) w in
    match l with
    | onFadeOutEnd updateFn =>
        let w := run_update updateFn w in
        let w := set_dom (set_quiz_is_fading false (dom w)) w in
        set_quizListeners (quizListeners w ++ [onFadeInEnd]) w
    | onFadeInEnd => set_isTransitioning false w
    end.

Definition run_timer (t : Timer) (w : World) : World :=
  match t with
  | resultsTimer =>
      let w := showOnly results w in
      let w := renderResultsScreen w in
      set_isTransitioning false w
  end.

(** What a click inside the stage lands on. *)
Inductive Button :=
| answerBtn (qid aindex : Z)        (* class [answer-btn], its data attributes *)
| shopBtn (shoeId : string)         (* [data-action="shop"] *)
| swatchBtn
| otherBtn.

Definition stageClick (btn : option Button) (w : World) : World :=
  if isTransitioning w then w
  else
    match btn with
    | None => w
    | Some (answerBtn qid aindex) => (handleAnswerClick qid aindex w).2
    | Some (shopBtn _) => w           (* an alert, nothing else *)
    | Some swatchBtn => w             (* classes of the swatches only *)
    | Some otherBtn => w
    end.

Inductive Event :=
| clickStart
| clickRestart
| clickMenu
| clickLogo
| clickStage (btn : option Button)
| transitionendStage (propertyName : string)
| transitionendQuiz (propertyName : string)
| timeout.

(** One turn of the event loop.  A dispatch calls the listeners that were
    registered when it started; a timeout runs the oldest timer. *)
Definition step (e : Event) (w : World) : World :=
  match e with
  | clickStart => startQuiz w
  | clickRestart => restartQuiz w
  | clickMenu | clickLogo => goToStartScreen w
  | clickStage btn => stageClick btn w
  | transitionendStage p =>
      foldl (λ w l, run_stage_listener p l w) w (stageListeners w)
  | transitionendQuiz p =>
      foldl (λ w l, run_quiz_listener p l w) w (quizListeners w)
  | timeout =>
      match timers w with
      | [] => w
      | t :: ts => run_timer t (set_timers ts w)
      end
  end.

Definition run (es : list Event) (w : World) : World := foldl (λ w e, step e w) w es.

(** ** Boot (section 10), once data.json has been fetched *)

Definition init (html : Dom) (json : Dataset) : World :=
  showOnly start
    {| DATA := json;
       questionsById := buildQuestionsMap (questions json);
       state := initialState json;
       isTransitioning := false;
       stageListeners := [];
       quizListeners := [];
       timers := [];
       dom := html |}.

(** ** [rankedShoes] on a store of objects

    The value-level [rankedShoes] above says what the ranking contains.
    Which objects it touches and which it creates is a matter of
    references: here [DATA.shoes] is an array of references into a store,
    [.map] allocates one new object per element and a new array, and
    [.sort] permutes that new array. *)

Module Store.

(** A reference is a position in the store. *)
Abbreviation ref := nat (only parsing).

Inductive Obj :=
| shoeObj (s : Shoe)
| rankedObj (r : RankedShoe).

Record t := {
  objects : list Obj;              (* the object at reference [r] is [objects !! r] *)
  DATA_shoes : list ref;           (* the array [DATA.shoes] *)
  state_ratings : JsObj.t          (* the object [state.ratings] *)
}.

Definition alloc (o : Obj) (h : t) : ref * t :=
  (length (objects h),
   {| objects := objects h ++ [o];
      DATA_shoes := DATA_shoes h;
      state_ratings := state_ratings h |}).

Definition shoe_of (o : Obj) : Shoe :=
  match o with
  | shoeObj s => s
  | rankedObj r => {| shoe_id := ranked_id r; shoe_name := ranked_name r |}
  end.

(** [{ ...s, rating: state.ratings[s.id] ?? 0 }] *)
Definition spread_with_rating (h : t) (o : Obj) : Obj :=
  rankedObj (withRating (state_ratings h) (shoe_of o)).

(** [arr.map((s) => ({ ...s, rating }))]: the new array, element by
    element.  A reference of the array always designates an object. *)
Fixpoint map_with_rating (arr : list ref) (h : t) : list ref * t :=
  match arr with
  | [] => ([], h)
  | s :: arr' =>
      match objects h !! s with
      | Some o =>
          let '(r, h) := alloc (spread_with_rating h o) h in
          let '(rs, h) := map_with_rating arr' h in
          (r :: rs, h)
      | None => map_with_rating arr' h
      end
  end.

(** The shoes that [DATA.shoes] designates, as values. *)
Definition stored_shoes (h : t) : list Shoe :=
  omap (λ s, shoe_of <$> objects h !! s) (DATA_shoes h).

Definition compare_refs (orderIndex : gmap string Z) (h : t) (a b : ref) : Z :=
  match objects h !! a, objects h !! b with
  | Some (rankedObj x), Some (rankedObj y) => compareRanked orderIndex x y
  | _, _ => 0
  end.

Definition rankedShoes (h : t) : list ref * t :=
  let orderIndex := orderIndexOf (stored_shoes h) in
  let '(mapped, h) := map_with_rating (DATA_shoes h) h in
  (js_sort (compare_refs orderIndex h) mapped, h).

(** What the references of an array designate. *)
Definition contents (h : t) (arr : list ref) : list Obj :=
  omap (λ r, objects h !! r) arr.

Definition well_formed (h : t) : Prop :=
  Forall (λ r, is_Some (objects h !! r)) (DATA_shoes h).

End Store.

(** ** What a call of [handleAnswerClick] leaves behind

    The function returns no value: whether the quiz goes on shows in the
    work the call has scheduled.  [Finished]: the screen is [loading] and
    the timer of the results has been started.  [Continue next]: the
    fade-out listener that will render question [next] has been registered
    (on the quiz content, or on the stage when the quiz screen is not the
    current one), and no timer. *)

Inductive Outcome := Finished | Continue (next : Z).

Inductive scheduled (w w' : World) : Outcome → Prop :=
| scheduled_results :
    timers w' = timers w ++ [resultsTimer] →
    stageListeners w' = stageListeners w →
    quizListeners w' = quizListeners w →
    screen (state w') = loading →
    scheduled w w' Finished
| scheduled_quiz_fade next :
    timers w' = timers w →
    stageListeners w' = stageListeners w →
    quizListeners w' = quizListeners w ++ [onFadeOutEnd (questionUpdate next)] →
    screen (state w') = screen (state w) →
    scheduled w w' (Continue next)
| scheduled_stage_fade next :
    timers w' = timers w →
    stageListeners w' = stageListeners w ++ [onOutEnd (questionUpdate next)] →
    quizListeners w' = quizListeners w →
    screen (state w') = screen (state w) →
    scheduled w w' (Continue next).

(** The test [next === "" || next === null || typeof next === "undefined"]. *)
Definition is_terminal (next : NextQuestion) : bool :=
  match next with
  | NextId _ => false
  | NextEmptyString | NextNull | NextMissing => true
  end.

(** The events that end a transition in [w]: the fade-in listener hears the
    end of the opacity transition, or the timer of the results fires. *)
Definition completes (e : Event) (w : World) : Prop :=
  match e with
  | transitionendStage p => p = "opacity" ∧ onInEnd ∈ stageListeners w
  | transitionendQuiz p => p = "opacity" ∧ onFadeInEnd ∈ quizListeners w
  | timeout => timers w ≠ []
  | _ => False
  end.

(** The work in flight: listeners waiting for the end of a fade, and timers. *)
Definition pending (w : World) : nat :=
  length (stageListeners w) + length (quizListeners w) + length (timers w).

(** The guard is set exactly while one piece of work is in flight. *)
Definition guard_consistent (w : World) : Prop :=
  pending w = if isTransitioning w then 1%nat else 0%nat.

(** ** Sample pages and datasets, for the examples below *)

Definition blankPage : Dom :=
  {| visibleScreen := start; stage_is_out := false; quiz_is_fading := false;
     questionText := ""; answerButtons := []; summaryText := summaryEmpty;
     recommendedSlot := []; similarGrid := [] |}.

(** Two shoes; question 0 branches to question 1, whose answer ends the quiz. *)
Definition sampleData : Dataset :=
  {| shoes := [ {| shoe_id := "X"; shoe_name := "Shoe X" |};
                {| shoe_id := "Y"; shoe_name := "Shoe Y" |} ];
     questions :=
       [ {| question_id := 0; question_copy := "First question";
            answers :=
              [ {| answer_copy := "for X"; ratingIncrease := Some [("X", 2)];
                   nextQuestion := NextId 1 |};
                {| answer_copy := "for Y"; ratingIncrease := Some [("Y", 2)];
                   nextQuestion := NextId 1 |} ] |};
         {| question_id := 1; question_copy := "Second question";
            answers :=
              [ {| answer_copy := "X again"; ratingIncrease := Some [("X", 5)];
                   nextQuestion := NextNull |} ] |} ] |}.

(** The same increase [{A: 3, B: 1}] on the answers of two questions. *)
Definition increaseAB : JsObj.t := [("A", 3); ("B", 1)].

Definition twiceData : Dataset :=
  {| shoes := [ {| shoe_id := "A"; shoe_name := "Shoe A" |};
                {| shoe_id := "B"; shoe_name := "Shoe B" |} ];
     questions :=
       [ {| question_id := 0; question_copy := "Once";
            answers := [ {| answer_copy := "yes"; ratingIncrease := Some increaseAB;
                            nextQuestion := NextId 1 |} ] |};
         {| question_id := 1; question_copy := "Twice";
            answers := [ {| answer_copy := "yes"; ratingIncrease := Some increaseAB;
                            nextQuestion := NextEmptyString |} ] |} ] |}.

(** One shoe; the first answer gives it 2^53, the second gives it 1. *)
Definition roundingData : Dataset :=
  {| shoes := [ {| shoe_id := "A"; shoe_name := "Shoe A" |} ];
     questions :=
       [ {| question_id := 0; question_copy := "Much";
            answers := [ {| answer_copy := "yes";
                            ratingIncrease := Some [("A", 9007199254740992)];
                            nextQuestion := NextId 1 |} ] |};
         {| question_id := 1; question_copy := "One more";
            answers := [ {| answer_copy := "yes"; ratingIncrease := Some [("A", 1)];
                            nextQuestion := NextNull |} ] |} ] |}.

(** Shoe ids that are array indices, listed in descending order. *)
Definition numericIdsData : Dataset :=
  {| shoes := [ {| shoe_id := "2"; shoe_name := "Two" |};
                {| shoe_id := "1"; shoe_name := "One" |} ];
     questions := [] |}.

(** Three shoes rated 5, 5 and 9. *)
Definition abcData : Dataset :=
  {| shoes := [ {| shoe_id := "a"; shoe_name := "A" |};
                {| shoe_id := "b"; shoe_name := "B" |};
                {| shoe_id := "c"; shoe_name := "C" |} ];
     questions := [] |}.

Definition abcState : State :=
  {| screen := results; currentQuestionId := 0;
     ratings := [("a", 5); ("b", 5); ("c", 9)] |}.

(** The quiz screen of [sampleData] after [Start] and its fade. *)
Definition sampleQuiz : World :=
  run [clickStart; transitionendStage "opacity"; transitionendStage "opacity"]
      (init blankPage sampleData).

(** [sampleQuiz] once the first answer has led to question 1. *)
Definition sampleQuestion1 : World :=
  run [clickStage (Some (answerBtn 0 0));
       transitionendQuiz "opacity"; transitionendQuiz "opacity"] sampleQuiz.

(** [sampleQuestion1] once its only answer, which ends the quiz, is chosen. *)
Definition sampleFinished : World := (handleAnswerClick 1 0 sampleQuestion1).2.

(** Two shoes in the store; only X has a rating. *)
Definition sampleStore : Store.t :=
  {| Store.objects := [ Store.shoeObj {| shoe_id := "X"; shoe_name := "Shoe X" |};
                        Store.shoeObj {| shoe_id := "Y"; shoe_name := "Shoe Y" |} ];
     Store.DATA_shoes := [0; 1]%nat;
     Store.state_ratings := [("X", -7)] |}.

(** ** The older variant of the program (second copy in app.js)

    Same data, same helpers, same page.  Two handlers differ:
    [renderQuestionScreen] does not write [state.currentQuestionId], and the
    end of the quiz asks [transitionTo] for the loading screen and starts a
    timer whose callback asks [transitionTo] for the results. *)

Module Older.

Inductive Update :=
| quizUpdate                        (* of [startQuiz] and [restartQuiz] *)
| homeUpdate                        (* of [goToStartScreen] *)
| questionUpdate (next : Z)         (* of [handleAnswerClick], quiz goes on *)
| loadingUpdate                     (* of [handleAnswerClick], quiz ends *)
| resultsUpdate.                    (* of the timer set by [handleAnswerClick] *)

Inductive StageListener := onOutEnd (updateFn : Update) | onInEnd.
Inductive QuizListener := onFadeOutEnd (updateFn : Update) | onFadeInEnd.

#[global] Instance Update_eq_dec : EqDecision Update.
Proof. solve_decision. Defined.
#[global] Instance StageListener_eq_dec : EqDecision StageListener.
Proof. solve_decision. Defined.
#[global] Instance QuizListener_eq_dec : EqDecision QuizListener.
Proof. solve_decision. Defined.

Record World := {
  DATA : Dataset;
  questionsById : gmap Z Question;
  state : State;
  isTransitioning : bool;
  stageListeners : list StageListener;
  quizListeners : list QuizListener;
  timers : list Timer;
  dom : Dom
}.

Definition set_state (s : State) (w : World) : World :=
  {| DATA := DATA w; questionsById := questionsById w; state := s;
     isTransitioning := isTransitioning w; stageListeners := stageListeners w;
     quizListeners := quizListeners w; timers := timers w; dom := dom w |}.

Definition set_isTransitioning (b : bool) (w : World) : World :=
  {| DATA := DATA w; questionsById := questionsById w; state := state w;
     isTransitioning := b; stageListeners := stageListeners w;
     quizListeners := quizListeners w; timers := timers w; dom := dom w |}.

Definition set_stageListeners (ls : list StageListener) (w : World) : World :=
  {| DATA := DATA w; questionsById := questionsById w; state := state w;
     isTransitioning := isTransitioning w; stageListeners := ls;
     quizListeners := quizListeners w; timers := timers w; dom := dom w |}.

Definition set_quizListeners (ls : list QuizListener) (w : World) : World :=
  {| DATA := DATA w; questionsById := questionsById w; state := state w;
     isTransitioning := isTransitioning w; stageListeners := stageListeners w;
     quizListeners := ls; timers := timers w; dom := dom w |}.

Definition set_timers (ts : list Timer) (w : World) : World :=
  {| DATA := DATA w; questionsById := questionsById w; state := state w;
     isTransitioning := isTransitioning w; stageListeners := stageListeners w;
     quizListeners := quizListeners w; timers := ts; dom := dom w |}.

Definition set_dom (d : Dom) (w : World) : World :=
  {| DATA := DATA w; questionsById := questionsById w; state := state w;
     isTransitioning := isTransitioning w; stageListeners := stageListeners w;
     quizListeners := quizListeners w; timers := timers w; dom := d |}.

Definition showOnly (screenName : Screen) (w : World) : World :=
  let w := set_dom (set_visibleScreen screenName (dom w)) w in
  set_state (set_screen screenName (state w)) w.

Definition transitionTo (updateFn : Update) (w : World) : World :=
  if isTransitioning w then w
  else
    let w := set_isTransitioning true w in
    let w := set_dom (set_stage_is_out true (dom w)) w in
    set_stageListeners (stageListeners w ++ [onOutEnd updateFn]) w.

Definition fadeQuizContentAndUpdate (updateFn : Update) (w : World) : World :=
  if decide (screen (state w) ≠ quiz) then transitionTo updateFn w
  else if isTransitioning w then w
  else
    let w := set_isTransitioning true w in
    let w := set_dom (set_quiz_is_fading true (dom w)) w in
    set_quizListeners (quizListeners w ++ [onFadeOutEnd updateFn]) w.

Definition renderQuestionScreen (questionId : Z) (w : World) : World :=
  match getQuestion (questionsById w) questionId with
  | None => set_dom (set_question "Question not found." [] (dom w)) w
  | Some q =>
      let buttons :=
        imap (λ idx ans,
                {| button_text := answer_copy ans;
                   data_qid := question_id q;
                   data_aindex := Z.of_nat idx |})
             (answers q) in
      set_dom (set_question (question_copy q) buttons (dom w)) w
  end.

Definition renderResultsScreen (w : World) : World :=
  let ranked := rankedShoes (DATA w) (state w) in
  let view := selectResults ranked in
  let summary :=
    match recommended view, similar view with
    | Some r, s :: _ => summaryTwo (ranked_name r) (ranked_name s)
    | Some r, [] => summaryOne (ranked_name r)
    | None, _ => summaryEmpty
    end in
  set_dom (set_results summary (option_list (recommended view)) (similar view) (dom w)) w.

Definition run_update (updateFn : Update) (w : World) : World :=
  match updateFn with
  | quizUpdate =>
      let w := set_state (initialState (DATA w)) w in
      let w := showOnly quiz w in
      renderQuestionScreen 0 w
  | homeUpdate =>
      (* [if (DATA)]: the data is loaded in every world *)
      let w := set_state (initialState (DATA w)) w in
      showOnly start w
  | questionUpdate next => renderQuestionScreen next w
  | loadingUpdate => showOnly loading w
  | resultsUpdate =>
      let w := showOnly results w in
      renderResultsScreen w
  end.

Definition startQuiz (w : World) : World := transitionTo quizUpdate w.
Definition restartQuiz (w : World) : World := transitionTo quizUpdate w.

Definition handleAnswerClick (qid aIndex : Z) (w : World) : World :=
  match getQuestion (questionsById w) qid with
  | None => w
  | Some q =>
      match js_index (answers q) aIndex with
      | None => w
      | Some ans =>
          let w :=
            set_state
              (set_ratings (applyRatingIncrease (ratingIncrease ans) (ratings (state w)))
                           (state w)) w in
          match nextQuestion ans with
          | NextEmptyString | NextNull | NextMissing =>
              let w := transitionTo loadingUpdate w in
              set_timers (timers w ++ [resultsTimer]) w
          | NextId next => fadeQuizContentAndUpdate (questionUpdate next) w
          end
      end
  end.

Definition goToStartScreen (w : World) : World :=
  if isTransitioning w then w else transitionTo homeUpdate w.

Definition run_stage_listener (propertyName : string) (l : StageListener) (w : World)
  : World :=
  if decide (propertyName ≠ "opacity") then w
  else
    let w := set_stageListeners (remove_listener l (stageListeners w)) w in
    match l with
    | onOutEnd updateFn =>
        let w := run_update updateFn w in
        let w := set_dom (set_stage_is_out false (dom w)) w in
        set_stageListeners (stageListeners w ++ [onInEnd]) w
    | onInEnd => set_isTransitioning false w
    end.

Definition run_quiz_listener (propertyName : string) (l : QuizListener) (w : World)
  : World :=
  if decide (propertyName ≠ "opacity") then w
  else
    let w := set_quizListeners (remove_listener l (quizListeners w)) w in
    match l with
    | onFadeOutEnd updateFn =>
        let w := run_update updateFn w in
        let w := set_dom (set_quiz_is_fading false (dom w)) w in
        set_quizListeners (quizListeners w ++ [onFadeInEnd]) w
    | onFadeInEnd => set_isTransitioning false w
    end.

Definition run_timer (t : Timer) (w : World) : World :=
  match t with
  | resultsTimer => transitionTo resultsUpdate w
  end.

Definition stageClick (btn : option Button) (w : World) : World :=
  if isTransitioning w then w
  else
    match btn with
    | None => w
    | Some (answerBtn qid aindex) => handleAnswerClick qid aindex w
    | Some (shopBtn _) => w           (* an alert, nothing else *)
    | Some swatchBtn => w             (* classes of the swatches only *)
    | Some otherBtn => w
    end.

Definition step (e : Event) (w : World) : World :=
  match e with
  | clickStart => startQuiz w
  | clickRestart => restartQuiz w
  | clickMenu | clickLogo => goToStartScreen w
  | clickStage btn => stageClick btn w
  | transitionendStage p =>
      foldl (λ w l, run_stage_listener p l w) w (stageListeners w)
  | transitionendQuiz p =>
      foldl (λ w l, run_quiz_listener p l w) w (quizListeners w)
  | timeout =>
      match timers w with
      | [] => w
      | t :: ts => run_timer t (set_timers ts w)
      end
  end.

Definition run (es : list Event) (w : World) : World := foldl (λ w e, step e w) w es.

Definition init (html : Dom) (json : Dataset) : World :=
  showOnly start
    {| DATA := json;
       questionsById := buildQuestionsMap (questions json);
       state := initialState json;
       isTransitioning := false;
       stageListeners := [];
       quizListeners := [];
       timers := [];
       dom := html |}.

(** No transition is in flight: the guard is clear and nothing is pending. *)
Definition idle (w : World) : Prop :=
  isTransitioning w = false
  ∧ stageListeners w = [] ∧ quizListeners w = [] ∧ timers w = [].

End Older.

(** The quiz of [sampleData] in the older variant, at question 1. *)
Definition olderQuestion1 : Older.World :=
  Older.run [ clickStart; transitionendStage "opacity"; transitionendStage "opacity";
              clickStage (Some (answerBtn 0 0));
              transitionendQuiz "opacity"; transitionendQuiz "opacity" ]
            (Older.init blankPage sampleData).

(** [roundingData] once the first answer has been chosen. *)
Definition roundingWorld : World :=
  (handleAnswerClick 0 0 (init blankPage roundingData)).2.

(** ** Predicates on worlds, for the properties of whole runs *)

(** An answer button of the page designates an answer of the index, the one
    whose text it shows. *)
Definition button_resolves (w : World) (b : AnswerButton) : Prop :=
  ∃ q ans,
    getQuestion (questionsById w) (data_qid b) = Some q
    ∧ js_index (answers q) (data_aindex b) = Some ans
    ∧ button_text b = answer_copy ans.

(** No transition is in flight: the guard is clear and nothing is pending. *)
Definition idle (w : World) : Prop :=
  isTransitioning w = false ∧ pending w = 0%nat.

(** The score the ranking gives a shoe. *)
Definition score (r : JsObj.t) (s : Shoe) : Z := or_0 (JsObj.get r (shoe_id s)).

(** The results screen of the sample quiz, once the timer has fired. *)
Definition sampleFinishedResults : World := step timeout sampleFinished.

(** * Properties *)

Example rankedShoes_abc :
  map ranked_id (rankedShoes abcData abcState) = ["c"; "a"; "b"].
Proof. reflexivity. Qed.

Example createInitialRatings_numeric_ids :
  createInitialRatings [ {| shoe_id := "2"; shoe_name := "Two" |};
                         {| shoe_id := "1"; shoe_name := "One" |};
                         {| shoe_id := "x"; shoe_name := "X" |};
                         {| shoe_id := "01"; shoe_name := "Z" |};
                         {| shoe_id := "10"; shoe_name := "Ten" |} ]
  = [("1", 0); ("2", 0); ("10", 0); ("x", 0); ("01", 0)].
Proof. reflexivity. Qed.

(** The scenario of two questions, played through the event loop. *)
Example sampleQuiz_shows_question_0 :
  screen (state sampleQuiz) = quiz
  ∧ isTransitioning sampleQuiz = false
  ∧ map data_aindex (answerButtons (dom sampleQuiz)) = [0; 1].
Proof. vm_compute. done. Qed.

Example sample_play :
  let w := run [ clickStage (Some (answerBtn 0 0));
                 transitionendQuiz "opacity"; transitionendQuiz "opacity";
                 clickStage (Some (answerBtn 1 0));
                 timeout ] sampleQuiz in
  ratings (state w) = [("X", 7); ("Y", 0)]
  ∧ screen (state w) = results
  ∧ map ranked_id (recommendedSlot (dom w)) = ["X"]
  ∧ map ranked_id (similarGrid (dom w)) = ["Y"]
  ∧ isTransitioning w = false.
Proof. vm_compute. done. Qed.

(** ** Objects: reading after writing, and the order of the keys *)

Section JsObj_facts.
Import JsObj.
Implicit Types (o : JsObj.t) (k : string) (v : Z).

Lemma get_None_keys o k : get o k = None ↔ k ∉ keys o.
Proof.
  induction o as [|[k' v'] o IH]; simpl.
  - split; [intros _; apply not_elem_of_nil | done].
  - rewrite not_elem_of_cons. case_decide; subst.
    + split; [done | intros [? _]; done].
    + rewrite IH. split; [intros ?; split; [congruence | done] | intros [_ ?]; done].
Qed.

Lemma get_update o k v k' :
  is_Some (get o k) →
  get (update k v o) k' = if decide (k = k') then Some v else get o k'.
Proof.
  induction o as [|[k0 v0] o IH]; simpl; intros Hk.
  - by destruct Hk.
  - destruct (decide (k0 = k)) as [->|Hne]; simpl.
    + repeat case_decide; congruence.
    + rewrite IH by done. repeat case_decide; congruence.
Qed.

Lemma get_insert_index n o k v k' :
  get o k = None →
  get (insert_index n k v o) k' = if decide (k = k') then Some v else get o k'.
Proof.
  induction o as [|[k0 v0] o IH]; simpl; intros Hk.
  - done.
  - destruct (decide (k0 = k)) as [->|Hne]; [done |].
    destruct (array_index k0) as [n'|]; [destruct (n' <? n)%N |]; simpl;
      rewrite ?IH by done; repeat case_decide; congruence.
Qed.

Lemma get_app_new o k v k' :
  get o k = None →
  get (o ++ [(k, v)]) k' = if decide (k = k') then Some v else get o k'.
Proof.
  induction o as [|[k0 v0] o IH]; simpl; intros Hk.
  - done.
  - destruct (decide (k0 = k)) as [->|Hne]; [done |].
    rewrite IH by done. repeat case_decide; congruence.
Qed.

(** [o[k] = v] then [o[k']]. *)
Lemma get_set o k v k' :
  get (set k v o) k' = if decide (k = k') then Some v else get o k'.
Proof.
  unfold set. destruct (get o k) as [v0|] eqn:Hk.
  - apply get_update. by rewrite Hk.
  - destruct (array_index k); [by apply get_insert_index | by apply get_app_new].
Qed.

Lemma keys_update o k v : keys (update k v o) = keys o.
Proof.
  induction o as [|[k0 v0] o IH]; simpl; [done |].
  case_decide; simpl; congruence.
Qed.

Lemma keys_insert_index n o k v : keys (insert_index n k v o) ≡ₚ k :: keys o.
Proof.
  induction o as [|[k0 v0] o IH]; simpl; [done |].
  destruct (array_index k0) as [n'|]; [destruct (n' <? n)%N |]; simpl; try done.
  rewrite IH. apply Permutation_swap.
Qed.

(** Writing a key that is there keeps the keys; writing a new one adds it. *)
Lemma keys_set o k v :
  keys (set k v o) ≡ₚ if decide (k ∈ keys o) then keys o else k :: keys o.
Proof.
  unfold set. destruct (get o k) as [v0|] eqn:Hk.
  - rewrite keys_update. rewrite decide_True; [done |].
    destruct (decide (k ∈ keys o)) as [|Hn]; [done |].
    apply get_None_keys in Hn. congruence.
  - apply get_None_keys in Hk. rewrite decide_False by done.
    destruct (array_index k).
    + apply keys_insert_index.
    + unfold keys. rewrite map_app. simpl. by rewrite Permutation_app_comm.
Qed.

Lemma keys_set_NoDup o k v : NoDup (keys o) → NoDup (keys (set k v o)).
Proof.
  intros Hnd. rewrite keys_set. case_decide; [done |]. by constructor.
Qed.

(** A new key that is not an array index goes last. *)
Lemma set_append o k v :
  get o k = None → array_index k = None → set k v o = o ++ [(k, v)].
Proof. intros Hk Hi. unfold set. by rewrite Hk, Hi. Qed.

End JsObj_facts.

Lemma number_or_0_id inc : number_or_0 inc = inc.
Proof. unfold number_or_0. destruct (Z.eqb_spec inc 0); congruence. Qed.

(** ** [createInitialRatings] *)

Lemma createInitialRatings_snoc shoes s :
  createInitialRatings (shoes ++ [s])
  = JsObj.set (shoe_id s) 0 (createInitialRatings shoes).
Proof. unfold createInitialRatings. by rewrite foldl_app. Qed.

Lemma createInitialRatings_get shoes k :
  JsObj.get (createInitialRatings shoes) k
  = if decide (k ∈ map shoe_id shoes) then Some 0 else None.
Proof.
  induction shoes as [|s shoes IH] using rev_ind.
  - reflexivity.
  - rewrite createInitialRatings_snoc, get_set, IH, map_app. simpl.
    destruct (decide (shoe_id s = k)) as [<-|Hne].
    + rewrite decide_True; [done |]. apply elem_of_app. right. by left.
    + destruct (decide (k ∈ map shoe_id shoes)) as [Hin|Hin].
      * rewrite decide_True; [done |]. apply elem_of_app. by left.
      * rewrite decide_False; [done |]. intros [?|Hk]%elem_of_app; [done |].
        apply list_elem_of_singleton in Hk. congruence.
Qed.

Lemma createInitialRatings_NoDup shoes :
  NoDup (JsObj.keys (createInitialRatings shoes)).
Proof.
  induction shoes as [|s shoes IH] using rev_ind.
  - constructor.
  - rewrite createInitialRatings_snoc. by apply keys_set_NoDup.
Qed.

Lemma createInitialRatings_keys shoes k :
  k ∈ JsObj.keys (createInitialRatings shoes) ↔ k ∈ map shoe_id shoes.
Proof.
  pose proof (get_None_keys (createInitialRatings shoes) k) as H.
  rewrite createInitialRatings_get in H.
  destruct (decide (k ∈ map shoe_id shoes)) as [Hin|Hin].
  - split; [done | intros _].
    destruct (decide (k ∈ JsObj.keys (createInitialRatings shoes))); [done |].
    by apply H in n.
  - split; [| done]. intros Hk. by apply H in Hk.
Qed.

Lemma set_all_zero o k :
  Forall (λ kv, kv.2 = 0) o → Forall (λ kv, kv.2 = 0) (JsObj.set k 0 o).
Proof.
  intros Ho. unfold JsObj.set. destruct (JsObj.get o k).
  - induction Ho as [|[k0 v0] o H0 Ho IH]; simpl; [constructor |].
    case_decide; constructor; done.
  - destruct (JsObj.array_index k) as [n|].
    + induction Ho as [|[k0 v0] o H0 Ho IH]; simpl.
      * by repeat constructor.
      * destruct (JsObj.array_index k0) as [n'|]; [destruct (n' <? n)%N |];
          repeat (constructor; try done).
    + apply Forall_app. split; [done | by repeat constructor].
Qed.

Lemma createInitialRatings_zero shoes :
  Forall (λ kv, kv.2 = 0) (createInitialRatings shoes).
Proof.
  induction shoes as [|s shoes IH] using rev_ind.
  - constructor.
  - rewrite createInitialRatings_snoc. by apply set_all_zero.
Qed.

(** With ids that are not array indices the entries are those of the
    shoes, one per shoe and in their order. *)
Lemma createInitialRatings_in_order shoes :
  NoDup (map shoe_id shoes) →
  Forall (λ s, JsObj.array_index (shoe_id s) = None) shoes →
  createInitialRatings shoes = map (λ s, (shoe_id s, 0)) shoes.
Proof.
  induction shoes as [|s shoes IH] using rev_ind; intros Hnd Hidx; [done |].
  rewrite map_app in Hnd. apply NoDup_app in Hnd as (Hnd & Hfresh & _).
  apply Forall_app in Hidx as [Hidx Hs]. apply Forall_inv in Hs.
  rewrite createInitialRatings_snoc, map_app. simpl.
  rewrite <- IH by done. apply set_append; [| exact Hs].
  rewrite createInitialRatings_get. apply decide_False.
  intros Hin. apply (Hfresh _ Hin). simpl. by left.
Qed.

Lemma createInitialRatings_perm shoes :
  NoDup (map shoe_id shoes) →
  JsObj.keys (createInitialRatings shoes) ≡ₚ map shoe_id shoes.
Proof.
  intros Hnd. apply NoDup_Permutation; [apply createInitialRatings_NoDup | done |].
  intros k. apply createInitialRatings_keys.
Qed.

(** ** New sessions *)

Lemma run_update_quiz_state w :
  state (run_update quizUpdate w) = set_screen quiz (initialState (DATA w)).
Proof.
  unfold run_update, renderQuestionScreen, showOnly. simpl.
  by destruct (getQuestion _ _).
Qed.

Lemma run_update_home_state w :
  state (run_update homeUpdate w) = initialState (DATA w).
Proof. reflexivity. Qed.

(** C5 (amended).  [initialState] gives the screen [start], the question id
    [0] and ratings that hold [0] for exactly the ids of the shoes of the
    dataset, each key once; with distinct ids there is one entry per shoe,
    and the entries come in the order of the shoes when moreover no id is an
    array index.  The state after boot is this one, and the update of a
    start or restart (and of a return to the start screen) replaces the
    whole state by it, whatever the ratings and the question id were, before
    it shows the quiz screen. *)
Theorem C5_new_session (d : Dataset) :
  let ids := map shoe_id (shoes d) in
  let s := initialState d in
  screen s = start
  ∧ currentQuestionId s = 0
  ∧ (∀ k, JsObj.get (ratings s) k = if decide (k ∈ ids) then Some 0 else None)
  ∧ Forall (λ kv, kv.2 = 0) (JsObj.entries (ratings s))
  ∧ NoDup (JsObj.keys (ratings s))
  ∧ (NoDup ids →
     JsObj.keys (ratings s) ≡ₚ ids
     ∧ length (JsObj.entries (ratings s)) = length (shoes d))
  ∧ (NoDup ids →
     Forall (λ id, JsObj.array_index id = None) ids →
     JsObj.entries (ratings s) = map (λ x, (shoe_id x, 0)) (shoes d))
  ∧ (∀ html, state (init html d) = s)
  ∧ (∀ w, DATA w = d →
       state (run_update quizUpdate w) = set_screen quiz s
       ∧ currentQuestionId (state (run_update quizUpdate w)) = 0
       ∧ ratings (state (run_update quizUpdate w)) = ratings s
       ∧ state (run_update homeUpdate w) = s).
Proof.
  intros ids s. subst ids s.
  split_and!; try done.
  - apply createInitialRatings_get.
  - apply createInitialRatings_zero.
  - apply createInitialRatings_NoDup.
  - intros Hnd. split; [by apply createInitialRatings_perm |].
    unfold JsObj.entries.
    rewrite <- (length_map fst), <- (length_map shoe_id (shoes d)).
    apply Permutation_length. by apply createInitialRatings_perm.
  - intros Hnd Hidx. apply createInitialRatings_in_order; [done |].
    by apply Forall_map in Hidx.
  - intros w <-. rewrite !run_update_quiz_state. done.
Qed.

Lemma C5_new_session_witness :
  JsObj.entries (ratings (initialState sampleData)) = [("X", 0); ("Y", 0)].
Proof.
  apply (C5_new_session sampleData).
  - apply (bool_decide_unpack _). by vm_compute.
  - apply (bool_decide_unpack _). by vm_compute.
Defined.

(** C5, as stated, fails on the order of the entries: the shoes "2" and "1",
    in this order, get the ratings object whose keys are "1", "2". *)
Lemma C5_entries_not_in_dataset_order :
  NoDup (map shoe_id (shoes numericIdsData))
  ∧ JsObj.keys (ratings (initialState numericIdsData)) = ["1"; "2"]
  ∧ JsObj.entries (ratings (initialState numericIdsData))
    ≠ map (λ x, (shoe_id x, 0)) (shoes numericIdsData).
Proof.
  split_and!.
  - apply (bool_decide_unpack _). by vm_compute.
  - reflexivity.
  - vm_compute. discriminate.
Qed.

(** ** Scoring *)

Lemma round_binary64_exact z : safe_integer z → round_binary64 z = z.
Proof.
  unfold safe_integer, round_binary64. intros Hz.
  destruct (Z.leb_spec (Z.abs z) (2 ^ 53)); [done | lia].
Qed.

(** In the safe range the sum of the program is the sum of [Z]. *)
Lemma js_add_exact x y : safe_integer (x + y) → js_add x y = x + y.
Proof. apply round_binary64_exact. Qed.

(** Beyond it [round_binary64] gives a double with a significand [m] of 53
    bits at the exponent of the integer (or the next power of two), at most
    half a spacing away, and the even one when two are that near. *)
Lemma round_binary64_nearest z :
  2 ^ 53 < Z.abs z →
  let e := Z.log2 (Z.abs z) - 52 in
  ∃ m, round_binary64 z = Z.sgn z * (m * 2 ^ e)
       ∧ 1 ≤ e
       ∧ 2 ^ 52 ≤ m ≤ 2 ^ 53
       ∧ 2 * Z.abs (Z.abs z - m * 2 ^ e) ≤ 2 ^ e
       ∧ (2 * Z.abs (Z.abs z - m * 2 ^ e) = 2 ^ e → Z.even m = true).
Proof.
  intros Hbig e. unfold round_binary64.
  destruct (Z.leb_spec (Z.abs z) (2 ^ 53)) as [|_]; [lia |].
  fold e. set (a := Z.abs z) in *.
  assert (Ha : 0 < a) by lia.
  destruct (Z.log2_spec a Ha) as [Hlo Hhi].
  assert (HL : 53 ≤ Z.log2 a).
  { change 53 with (Z.log2 (2 ^ 53)). apply Z.log2_le_mono. lia. }
  assert (He : 1 ≤ e) by (subst e; lia).
  set (P := 2 ^ e).
  assert (HP : 0 < P) by (apply Z.pow_pos_nonneg; lia).
  assert (HloP : 2 ^ 52 * P ≤ a).
  { subst P. rewrite <- Z.pow_add_r by lia.
    replace (52 + e) with (Z.log2 a) by (subst e; lia). done. }
  assert (HhiP : a < 2 ^ 53 * P).
  { subst P. rewrite <- Z.pow_add_r by lia.
    replace (53 + e) with (Z.succ (Z.log2 a)) by (subst e; lia). done. }
  rewrite Z.shiftr_div_pow2 by lia. fold P.
  rewrite !Z.shiftl_mul_pow2 by lia. fold P.
  assert (Hhalf : P = 2 * (1 * 2 ^ (e - 1))).
  { subst P. rewrite Z.mul_1_l, <- (Z.pow_succ_r 2 (e - 1)) by lia. f_equal. lia. }
  set (half := 1 * 2 ^ (e - 1)) in *.
  pose proof (Z.div_mod a P ltac:(lia)) as Hdm.
  pose proof (Z.mod_pos_bound a P HP) as Hmod.
  set (q := a / P) in *.
  assert (Hq : 2 ^ 52 ≤ q < 2 ^ 53) by nia.
  destruct (Z.ltb_spec (a - q * P) half) as [Hr|Hr].
  - exists q. split; [done |]. split; [done |]. split; [lia |]. split; lia.
  - destruct (Z.ltb_spec half (a - q * P)) as [Hr'|Hr'].
    + exists (q + 1). split; [done |]. split; [done |]. split; [lia |]. split; lia.
    + destruct (Z.even q) eqn:Hev.
      * exists q. split; [done |]. repeat split; first [lia | done].
      * exists (q + 1). split; [done |]. repeat split; try lia.
        intros _. rewrite Z.add_1_r, Z.even_succ. rewrite <- Z.negb_even, Hev. done.
Qed.

(** Beyond it the sum is rounded: to the even neighbour on a tie. *)
Example js_add_rounds :
  js_add (2 ^ 53) 1 = 2 ^ 53
  ∧ js_add (2 ^ 53 + 2) 1 = 2 ^ 53 + 4
  ∧ js_add (2 ^ 53) 2 = 2 ^ 53 + 2
  ∧ js_add (2 ^ 53) 3 = 2 ^ 53 + 4
  ∧ js_add (- 2 ^ 53) (-1) = - 2 ^ 53
  ∧ js_add (2 ^ 54) 6 = 2 ^ 54 + 8
  ∧ js_add (2 ^ 54) 5 = 2 ^ 54 + 4.
Proof. by vm_compute. Qed.

Lemma applyRatingIncrease_get inc r k :
  NoDup (JsObj.keys inc) →
  JsObj.get (applyRatingIncrease (Some inc) r) k
  = match JsObj.get inc k with
    | Some delta => Some (js_add (or_0 (JsObj.get r k)) delta)
    | None => JsObj.get r k
    end.
Proof.
  unfold applyRatingIncrease, JsObj.entries.
  revert r. induction inc as [|[k0 d0] inc IH]; intros r Hnd; [done |].
  simpl in Hnd. apply NoDup_cons in Hnd as [Hk0 Hnd].
  cbn [foldl]. rewrite IH by done. rewrite get_set, number_or_0_id.
  cbn [JsObj.get].
  destruct (decide (k0 = k)) as [->|Hne].
  - apply get_None_keys in Hk0. by rewrite Hk0.
  - done.
Qed.

(** The frame of [handleAnswerClick]: what it never writes. *)
Lemma handleAnswerClick_frame qid aIndex w :
  let w' := (handleAnswerClick qid aIndex w).2 in
  DATA w' = DATA w
  ∧ questionsById w' = questionsById w
  ∧ currentQuestionId (state w') = currentQuestionId (state w).
Proof.
  unfold handleAnswerClick.
  destruct (getQuestion _ _) as [q|]; [| done].
  destruct (js_index _ _) as [ans|]; [| done].
  destruct (nextQuestion ans); simpl;
    unfold fadeQuizContentAndUpdate, transitionTo; simpl;
    repeat case_decide; destruct (isTransitioning w); done.
Qed.

Lemma handleAnswerClick_ratings qid aIndex w q ans :
  getQuestion (questionsById w) qid = Some q →
  js_index (answers q) aIndex = Some ans →
  ratings (state (handleAnswerClick qid aIndex w).2)
  = applyRatingIncrease (ratingIncrease ans) (ratings (state w)).
Proof.
  intros Hq Ha. unfold handleAnswerClick. rewrite Hq, Ha.
  destruct (nextQuestion ans); simpl;
    unfold fadeQuizContentAndUpdate, transitionTo; simpl;
    repeat case_decide; destruct (isTransitioning w); done.
Qed.

(** C2 (amended).  A call of [handleAnswerClick] on an answer that exists
    replaces the ratings by [applyRatingIncrease] of the answer's
    [ratingIncrease]: every id of the increase ends at its former rating, or
    [0] if it had none, plus the increment, added as the program adds
    numbers -- the sum of integers, negative increments subtracting and no
    bound cutting it off, as long as it is within 2^53 in magnitude, and the
    nearest double beyond; the other ids keep what they had; an answer
    without increase changes nothing.  Two calls on answers that carry
    [{A: 3, B: 1}] add 6 to the rating of A and 2 to that of B when these
    stay within 2^53, so a session that starts at zero ends at 6 and 2. *)
Theorem C2_scores_accumulate :
  (∀ w qid aIndex q ans,
     getQuestion (questionsById w) qid = Some q →
     js_index (answers q) aIndex = Some ans →
     let before := ratings (state w) in
     let after := ratings (state (handleAnswerClick qid aIndex w).2) in
     after = applyRatingIncrease (ratingIncrease ans) before
     ∧ (ratingIncrease ans = None → after = before)
     ∧ (∀ inc, ratingIncrease ans = Some inc → NoDup (JsObj.keys inc) →
          ∀ k,
            (JsObj.get inc k = None → JsObj.get after k = JsObj.get before k)
            ∧ (∀ delta, JsObj.get inc k = Some delta →
                 (finite_double (or_0 (JsObj.get before k) + delta) →
                  JsObj.get after k
                  = Some (round_binary64 (or_0 (JsObj.get before k) + delta)))
                 ∧ (safe_integer (or_0 (JsObj.get before k) + delta) →
                    JsObj.get after k = Some (or_0 (JsObj.get before k) + delta)))))
  ∧ (∀ w qid aIndex q ans qid' aIndex' q' ans',
       getQuestion (questionsById w) qid = Some q →
       js_index (answers q) aIndex = Some ans →
       getQuestion (questionsById w) qid' = Some q' →
       js_index (answers q') aIndex' = Some ans' →
       ratingIncrease ans = Some increaseAB →
       ratingIncrease ans' = Some increaseAB →
       let before := ratings (state w) in
       let w1 := (handleAnswerClick qid aIndex w).2 in
       let after := ratings (state (handleAnswerClick qid' aIndex' w1).2) in
       (Z.abs (or_0 (JsObj.get before "A")) + 6 ≤ 2 ^ 53 →
        JsObj.get after "A" = Some (or_0 (JsObj.get before "A") + 6))
       ∧ (Z.abs (or_0 (JsObj.get before "B")) + 2 ≤ 2 ^ 53 →
          JsObj.get after "B" = Some (or_0 (JsObj.get before "B") + 2))
       ∧ (or_0 (JsObj.get before "A") = 0 → JsObj.get after "A" = Some 6)
       ∧ (or_0 (JsObj.get before "B") = 0 → JsObj.get after "B" = Some 2)).
Proof.
  split.
  - intros w qid aIndex q ans Hq Ha before after. subst before after.
    rewrite (handleAnswerClick_ratings _ _ _ _ _ Hq Ha).
    split_and!; [done | by intros -> |].
    intros inc -> Hnd k. rewrite applyRatingIncrease_get by done. split.
    + by intros ->.
    + intros delta ->. split; [done |]. intros Hsafe. by rewrite js_add_exact.
  - intros w qid aIndex q ans qid' aIndex' q' ans' Hq Ha Hq' Ha' Hinc Hinc'
           before w1 after.
    assert (HnoDup : NoDup (JsObj.keys increaseAB)).
    { apply (bool_decide_unpack _). by vm_compute. }
    assert (Hq1 : getQuestion (questionsById w1) qid' = Some q').
    { subst w1. by rewrite (proj1 (proj2 (handleAnswerClick_frame qid aIndex w))). }
    assert (HA : ∀ k delta, JsObj.get increaseAB k = Some delta →
              0 ≤ delta →
              Z.abs (or_0 (JsObj.get before k)) + (delta + delta) ≤ 2 ^ 53 →
              JsObj.get after k = Some (or_0 (JsObj.get before k) + (delta + delta))).
    { intros k delta Hk Hpos Hsafe. subst after.
      rewrite (handleAnswerClick_ratings _ _ _ _ _ Hq1 Ha'), Hinc'.
      rewrite applyRatingIncrease_get, Hk by done.
      subst w1. rewrite (handleAnswerClick_ratings _ _ _ _ _ Hq Ha), Hinc.
      rewrite applyRatingIncrease_get, Hk by done. cbn [or_0 default from_option id].
      fold before. change (default 0 (JsObj.get before k)) with (or_0 (JsObj.get before k)). rewrite (js_add_exact (or_0 (JsObj.get before k)) delta)
        by (unfold safe_integer; lia).
      rewrite js_add_exact by (unfold safe_integer; lia).
      f_equal. lia. }
    split_and!.
    + intros Hsafe. by apply (HA "A" 3 eq_refl).
    + intros Hsafe. by apply (HA "B" 1 eq_refl).
    + intros H0. rewrite (HA "A" 3 eq_refl), H0; [done | lia | by rewrite H0].
    + intros H0. rewrite (HA "B" 1 eq_refl), H0; [done | lia | by rewrite H0].
Qed.

Lemma C2_scores_accumulate_witness :
  JsObj.get (ratings (state (handleAnswerClick 0 0 sampleQuiz).2)) "X" = Some 2
  ∧ JsObj.get
      (ratings (state (handleAnswerClick 1 0
                         (handleAnswerClick 0 0 (init blankPage twiceData)).2).2)) "A"
    = Some 6.
Proof.
  split.
  - edestruct (proj1 C2_scores_accumulate sampleQuiz 0 0) as (_ & _ & H);
      [by vm_compute | by vm_compute |].
    assert (Hnd : NoDup (JsObj.keys [("X", 2)])).
    { apply (bool_decide_unpack _). by vm_compute. }
    destruct (H [("X", 2)] eq_refl Hnd "X") as [_ H'].
    destruct (H' 2 eq_refl) as [_ Hsafe].
    assert (Hs : safe_integer
                   (or_0 (JsObj.get (ratings (state sampleQuiz)) "X") + 2)).
    { unfold safe_integer. by vm_compute. }
    specialize (Hsafe Hs). vm_compute in Hsafe. vm_compute. exact Hsafe.
  - edestruct (λ q ans, proj2 C2_scores_accumulate (init blankPage twiceData)
                              0 0 q ans 1 0)
      as (_ & _ & H & _); [by vm_compute .. |].
    apply H. by vm_compute.
Defined.

(** C2, as stated, fails on the sum: a rating of 2^53 that is given 1 more
    stays at 2^53, the program adds doubles. *)
Lemma C2_sum_is_rounded_beyond_2_53 :
  JsObj.get (ratings (state roundingWorld)) "A" = Some 9007199254740992
  ∧ (∃ q ans, getQuestion (questionsById roundingWorld) 1 = Some q
              ∧ js_index (answers q) 0 = Some ans
              ∧ ratingIncrease ans = Some [("A", 1)])
  ∧ JsObj.get (ratings (state (handleAnswerClick 1 0 roundingWorld).2)) "A"
    = Some 9007199254740992
  ∧ JsObj.get (ratings (state (handleAnswerClick 1 0 roundingWorld).2)) "A"
    ≠ Some (9007199254740992 + 1).
Proof.
  split_and!.
  - by vm_compute.
  - eexists _, _. split_and!; by vm_compute.
  - by vm_compute.
  - vm_compute. discriminate.
Qed.

(** ** Branching *)

Lemma js_index_None {A} (arr : list A) (i : Z) :
  js_index arr i = None ↔ i < 0 ∨ Z.of_nat (length arr) ≤ i.
Proof.
  unfold js_index. destruct (Z.ltb_spec i 0) as [Hneg|Hpos].
  - split; [by left | done].
  - rewrite nth_error_None. split; [intros ?; right; lia | intros [?|?]; lia].
Qed.

(** C3.  With no transition pending, a call of [handleAnswerClick] on an
    answer that exists schedules [Finished] exactly when the answer's
    [nextQuestion] is missing, null or the empty string -- the world it
    leaves is the same for the three -- and schedules [Continue next] exactly
    when [nextQuestion] is the question id [next].  The click on the answer
    button is this call. *)
Theorem C3_finished_iff_terminal w qid aIndex q ans :
  getQuestion (questionsById w) qid = Some q →
  js_index (answers q) aIndex = Some ans →
  isTransitioning w = false →
  let w' := (handleAnswerClick qid aIndex w).2 in
  (scheduled w w' Finished ↔ is_terminal (nextQuestion ans) = true)
  ∧ (scheduled w w' Finished ↔
       nextQuestion ans = NextMissing ∨ nextQuestion ans = NextNull
       ∨ nextQuestion ans = NextEmptyString)
  ∧ (∀ next, scheduled w w' (Continue next) ↔ nextQuestion ans = NextId next)
  ∧ (is_terminal (nextQuestion ans) = true →
       w' = set_timers (timers w ++ [resultsTimer])
              (showOnly loading
                 (set_isTransitioning true
                    (set_state
                       (set_ratings
                          (applyRatingIncrease (ratingIncrease ans) (ratings (state w)))
                          (state w)) w))))
  ∧ step (clickStage (Some (answerBtn qid aIndex))) w = w'.
Proof.
  intros Hq Ha Hguard w'.
  assert (Hterm : is_terminal (nextQuestion ans) = true → scheduled w w' Finished
                  ∧ w' = set_timers (timers w ++ [resultsTimer])
                           (showOnly loading
                              (set_isTransitioning true
                                 (set_state
                                    (set_ratings
                                       (applyRatingIncrease (ratingIncrease ans)
                                                            (ratings (state w)))
                                       (state w)) w)))).
  { intros Ht. subst w'. unfold handleAnswerClick. rewrite Hq, Ha.
    destruct (nextQuestion ans); try discriminate; simpl; rewrite Hguard; simpl;
      (split; [by constructor | done]). }
  assert (Hcont : ∀ next, nextQuestion ans = NextId next →
                          scheduled w w' (Continue next)).
  { intros next Hn. subst w'. unfold handleAnswerClick. rewrite Hq, Ha, Hn.
    unfold fadeQuizContentAndUpdate, transitionTo. simpl.
    case_decide; rewrite Hguard; simpl.
    - by apply scheduled_stage_fade.
    - by apply scheduled_quiz_fade. }
  assert (Hfin : scheduled w w' Finished → is_terminal (nextQuestion ans) = true).
  { intros Hs. destruct (nextQuestion ans) as [| | |next] eqn:Hn; try done.
    specialize (Hcont next eq_refl). inversion Hs as [Ht _ _ _| |].
    inversion Hcont as [|? Ht' _ _ _|? Ht' _ _ _]; rewrite Ht' in Ht;
      apply (f_equal length) in Ht; rewrite length_app in Ht; simpl in Ht; lia. }
  assert (Hiff : scheduled w w' Finished ↔ is_terminal (nextQuestion ans) = true).
  { split; [exact Hfin | intros Ht; exact (proj1 (Hterm Ht))]. }
  split_and!.
  - exact Hiff.
  - rewrite Hiff. destruct (nextQuestion ans); simpl.
    + split; [intros _; by left | done].
    + split; [intros _; right; by left | done].
    + split; [intros _; right; by right | done].
    + split; [done | intros [?|[?|?]]; done].
  - intros next. split; [| by apply Hcont].
    intros Hs. destruct (nextQuestion ans) as [| | |next'] eqn:Hn.
    1-3: destruct (Hterm eq_refl) as [Hf _]; inversion Hf as [Ht _ _ _| |];
         inversion Hs as [|? Ht' _ _ _|? Ht' _ _ _]; rewrite Ht' in Ht;
         apply (f_equal length) in Ht; rewrite length_app in Ht; simpl in Ht; lia.
    specialize (Hcont next' eq_refl).
    inversion Hs as [|? _ Hs1 Hs2 _|? _ Hs1 Hs2 _];
      inversion Hcont as [|? _ Hc1 Hc2 _|? _ Hc1 Hc2 _]; subst.
    + rewrite Hs2 in Hc2. apply app_inv_head in Hc2. congruence.
    + rewrite Hs2 in Hc2. apply (f_equal length) in Hc2.
      rewrite length_app in Hc2. simpl in Hc2. lia.
    + rewrite Hs1 in Hc1. apply (f_equal length) in Hc1.
      rewrite length_app in Hc1. simpl in Hc1. lia.
    + rewrite Hs1 in Hc1. apply app_inv_head in Hc1. congruence.
  - intros Ht. exact (proj2 (Hterm Ht)).
  - simpl. unfold stageClick. by rewrite Hguard.
Qed.

Lemma C3_finished_iff_terminal_witness :
  scheduled sampleQuestion1 (handleAnswerClick 1 0 sampleQuestion1).2 Finished
  ∧ scheduled sampleQuiz (handleAnswerClick 0 0 sampleQuiz).2 (Continue 1).
Proof.
  split.
  - edestruct (C3_finished_iff_terminal sampleQuestion1 1 0) as (H & _);
      [by vm_compute .. |].
    apply H. reflexivity.
  - edestruct (C3_finished_iff_terminal sampleQuiz 0 0) as (_ & _ & H & _);
      [by vm_compute .. |].
    apply H. reflexivity.
Defined.

(** ** Answers that do not exist *)

(** C4 (amended).  When the question id is not in [questionsById], or the
    answer index is outside the answers of the question, [handleAnswerClick]
    returns at once, normally and in the same way in both cases: no error
    is raised, and nothing is written -- ratings, current question id,
    screen, guard, listeners, timers and page are those of before.  The
    click that leads there leaves the world as it was. *)
Theorem C4_not_found_ignored w qid aIndex :
  (getQuestion (questionsById w) qid = None
   ∨ ∃ q, getQuestion (questionsById w) qid = Some q
          ∧ (aIndex < 0 ∨ Z.of_nat (length (answers q)) ≤ aIndex)) →
  handleAnswerClick qid aIndex w = (Returned, w)
  ∧ step (clickStage (Some (answerBtn qid aIndex))) w = w.
Proof.
  intros Hmiss.
  assert (H : handleAnswerClick qid aIndex w = (Returned, w)).
  { unfold handleAnswerClick. destruct Hmiss as [-> | (q & -> & Hout)]; [done |].
    apply js_index_None in Hout. by rewrite Hout. }
  split; [done |]. simpl. unfold stageClick. rewrite H. by destruct (isTransitioning w).
Qed.

Lemma C4_not_found_ignored_witness :
  handleAnswerClick 7 0 sampleQuiz = (Returned, sampleQuiz)
  ∧ handleAnswerClick 0 7 sampleQuiz = (Returned, sampleQuiz).
Proof.
  split.
  - apply (C4_not_found_ignored sampleQuiz 7 0). left. by vm_compute.
  - apply (C4_not_found_ignored sampleQuiz 0 7). right.
    eexists. split; [by vm_compute |]. right. by vm_compute.
Defined.

(** C4, as stated, fails: question 7 is not in the index and question 0 has
    no answer 7, yet neither call ends with an error, and the two calls end
    alike. *)
Lemma C4_no_error_is_raised :
  getQuestion (questionsById sampleQuiz) 7 = None
  ∧ (handleAnswerClick 7 0 sampleQuiz).1 ≠ Thrown QuestionNotFoundError
  ∧ (∃ q, getQuestion (questionsById sampleQuiz) 0 = Some q
          ∧ js_index (answers q) 7 = None)
  ∧ (handleAnswerClick 0 7 sampleQuiz).1 ≠ Thrown AnswerNotFoundError
  ∧ handleAnswerClick 7 0 sampleQuiz = handleAnswerClick 0 7 sampleQuiz.
Proof.
  split_and!.
  - by vm_compute.
  - vm_compute. discriminate.
  - eexists. split; by vm_compute.
  - vm_compute. discriminate.
  - by vm_compute.
Qed.

(** ** What an answer writes *)




(** ** The transition guard *)

Lemma run_update_keeps updateFn w :
  isTransitioning (run_update updateFn w) = isTransitioning w
  ∧ stageListeners (run_update updateFn w) = stageListeners w
  ∧ quizListeners (run_update updateFn w) = quizListeners w
  ∧ timers (run_update updateFn w) = timers w.
Proof.
  destruct updateFn; unfold run_update, renderQuestionScreen, showOnly; simpl;
    try destruct (getQuestion _ _); done.
Qed.

Lemma stage_listener_clears p l w :
  isTransitioning w = true →
  isTransitioning (run_stage_listener p l w) = false →
  p = "opacity" ∧ l = onInEnd.
Proof.
  unfold run_stage_listener. intros Hg.
  destruct (decide (p ≠ "opacity")) as [|Hp]; [congruence |].
  apply dec_stable in Hp. destruct l as [u|]; simpl; [| done].
  rewrite (proj1 (run_update_keeps u _)). simpl. congruence.
Qed.

Lemma quiz_listener_clears p l w :
  isTransitioning w = true →
  isTransitioning (run_quiz_listener p l w) = false →
  p = "opacity" ∧ l = onFadeInEnd.
Proof.
  unfold run_quiz_listener. intros Hg.
  destruct (decide (p ≠ "opacity")) as [|Hp]; [congruence |].
  apply dec_stable in Hp. destruct l as [u|]; simpl; [| done].
  rewrite (proj1 (run_update_keeps u _)). simpl. congruence.
Qed.

Lemma dispatch_stage_clears p ls w :
  isTransitioning w = true →
  isTransitioning (foldl (λ w l, run_stage_listener p l w) w ls) = false →
  p = "opacity" ∧ onInEnd ∈ ls.
Proof.
  revert w. induction ls as [|l ls IH]; simpl; intros w Hg Hc; [congruence |].
  destruct (isTransitioning (run_stage_listener p l w)) eqn:Hl.
  - destruct (IH _ Hl Hc) as [? ?]. split; [done | by right].
  - destruct (stage_listener_clears _ _ _ Hg Hl) as [? ->]. split; [done | by left].
Qed.

Lemma dispatch_quiz_clears p ls w :
  isTransitioning w = true →
  isTransitioning (foldl (λ w l, run_quiz_listener p l w) w ls) = false →
  p = "opacity" ∧ onFadeInEnd ∈ ls.
Proof.
  revert w. induction ls as [|l ls IH]; simpl; intros w Hg Hc; [congruence |].
  destruct (isTransitioning (run_quiz_listener p l w)) eqn:Hl.
  - destruct (IH _ Hl Hc) as [? ?]. split; [done | by right].
  - destruct (quiz_listener_clears _ _ _ Hg Hl) as [? ->]. split; [done | by left].
Qed.

Lemma remove_listener_head {A} `{EqDecision A} (l : A) ls :
  remove_listener l (l :: ls) = ls.
Proof. simpl. by rewrite decide_True. Qed.

Lemma step_guard_consistent e w :
  guard_consistent w → guard_consistent (step e w).
Proof.
  unfold guard_consistent, pending.
  destruct (isTransitioning w) eqn:Hg; intros Hinv.
  - (* a transition is in flight *)
    destruct e as [| | | |btn|p|p|]; simpl;
      unfold startQuiz, restartQuiz, goToStartScreen, transitionTo, stageClick;
      rewrite ?Hg; try done.
    + destruct (stageListeners w) as [|l [|l' ls]] eqn:Hs; simpl in *;
        [by rewrite Hs, Hg | | lia].
      unfold run_stage_listener. case_decide; [by rewrite Hs, Hg |].
      rewrite Hs, remove_listener_head.
      destruct l as [u|]; simpl; [| lia].
      destruct (run_update_keeps u (set_stageListeners [] w)) as (-> & -> & -> & ->).
      simpl. rewrite Hg. lia.
    + destruct (quizListeners w) as [|l [|l' ls]] eqn:Hs; simpl in *;
        [by rewrite Hs, Hg | | lia].
      unfold run_quiz_listener. case_decide; [by rewrite Hs, Hg |].
      rewrite Hs, remove_listener_head.
      destruct l as [u|]; simpl; [| lia].
      destruct (run_update_keeps u (set_quizListeners [] w)) as (-> & -> & -> & ->).
      simpl. rewrite Hg. lia.
    + destruct (timers w) as [|[] [|t' ts]] eqn:Ht; simpl in *;
        [by rewrite Ht, Hg | lia | lia].
  - (* nothing is in flight *)
    assert (Hs : stageListeners w = []) by (apply length_zero_iff_nil; lia).
    assert (Hq : quizListeners w = []) by (apply length_zero_iff_nil; lia).
    assert (Ht : timers w = []) by (apply length_zero_iff_nil; lia).
    destruct e as [| | | |btn|p|p|]; simpl;
      unfold startQuiz, restartQuiz, goToStartScreen, transitionTo, stageClick;
      rewrite ?Hg, ?Hs, ?Hq, ?Ht; simpl; rewrite ?Hg, ?Hs, ?Hq, ?Ht; try done.
    destruct btn as [[qid aIndex| | |]|]; rewrite ?Hg, ?Hs, ?Hq, ?Ht; try done.
    unfold handleAnswerClick.
    destruct (getQuestion _ _) as [q|]; [| simpl; by rewrite Hg, Hs, Hq, Ht].
    destruct (js_index _ _) as [ans|]; [| simpl; by rewrite Hg, Hs, Hq, Ht].
    destruct (nextQuestion ans); simpl; rewrite ?Hg; simpl;
      unfold fadeQuizContentAndUpdate, transitionTo; simpl;
      try case_decide; rewrite ?Hg; simpl; rewrite ?Hs, ?Hq, ?Ht; done.
Qed.

Lemma run_guard_consistent es w :
  guard_consistent w → guard_consistent (run es w).
Proof.
  revert w. induction es as [|e es IH]; intros w Hw; [done |].
  apply IH. by apply step_guard_consistent.
Qed.

(** The dataset and the index are those of boot in every world that
    follows. *)
Lemma step_keeps_data e w :
  DATA (step e w) = DATA w ∧ questionsById (step e w) = questionsById w.
Proof.
  assert (Hup : ∀ u w, DATA (run_update u w) = DATA w
                       ∧ questionsById (run_update u w) = questionsById w).
  { intros u w0. destruct u; unfold run_update, renderQuestionScreen, showOnly; simpl;
      try destruct (getQuestion _ _); done. }
  destruct e as [| | | |btn|p|p|]; simpl;
    unfold startQuiz, restartQuiz, goToStartScreen, transitionTo, stageClick.
  1-4: destruct (isTransitioning w); done.
  - destruct (isTransitioning w); [done |].
    destruct btn as [[qid aIndex| | |]|]; try done.
    destruct (handleAnswerClick_frame qid aIndex w) as (? & ? & _). done.
  - generalize (stageListeners w). intros ls. revert w.
    induction ls as [|l ls IH]; intros w; simpl; [done |].
    destruct (IH (run_stage_listener p l w)) as [-> ->].
    unfold run_stage_listener. case_decide; [done |].
    destruct l as [u|]; simpl; [| done].
    destruct (Hup u (set_stageListeners (remove_listener (onOutEnd u) (stageListeners w)) w))
      as [-> ->]. done.
  - generalize (quizListeners w). intros ls. revert w.
    induction ls as [|l ls IH]; intros w; simpl; [done |].
    destruct (IH (run_quiz_listener p l w)) as [-> ->].
    unfold run_quiz_listener. case_decide; [done |].
    destruct l as [u|]; simpl; [| done].
    destruct (Hup u (set_quizListeners (remove_listener (onFadeOutEnd u) (quizListeners w)) w))
      as [-> ->]. done.
  - destruct (timers w) as [|[] ts]; done.
Qed.

Lemma run_keeps_data es html json :
  DATA (run es (init html json)) = json
  ∧ questionsById (run es (init html json)) = buildQuestionsMap (questions json).
Proof.
  assert (H : ∀ w, DATA w = json →
                   questionsById w = buildQuestionsMap (questions json) →
                   DATA (run es w) = json
                   ∧ questionsById (run es w) = buildQuestionsMap (questions json));
    [| by apply H].
  unfold run. induction es as [|e es IH]; intros w Hd Hq; simpl; [done |].
  destruct (step_keeps_data e w) as [Hd' Hq']. apply IH; congruence.
Qed.

(** C8.  While [isTransitioning] is set, a click on an answer -- or on
    anything else in the stage -- leaves the whole world as it is: ratings,
    current question id and screen included, [handleAnswerClick] is not
    called.  The other ways to start a transition ([Start], [Restart], the
    menu, the logo, [transitionTo], [fadeQuizContentAndUpdate]) leave it as
    it is too.  The only event that clears the guard is one that completes
    the transition: the end of the opacity transition heard by the fade-in
    listener, or the timer of the results.  Every start of a transition sets
    the guard, and in every world reached from boot the guard is set exactly
    when one listener or timer is in flight, never two. *)
Theorem C8_guard_blocks :
  (∀ w, isTransitioning w = true →
     (∀ btn, step (clickStage btn) w = w)
     ∧ (∀ qid aIndex,
          let w' := step (clickStage (Some (answerBtn qid aIndex))) w in
          ratings (state w') = ratings (state w)
          ∧ currentQuestionId (state w') = currentQuestionId (state w)
          ∧ screen (state w') = screen (state w))
     ∧ step clickStart w = w
     ∧ step clickRestart w = w
     ∧ step clickMenu w = w
     ∧ step clickLogo w = w
     ∧ (∀ updateFn, transitionTo updateFn w = w)
     ∧ (∀ updateFn, fadeQuizContentAndUpdate updateFn w = w)
     ∧ (∀ e, isTransitioning (step e w) = false → completes e w))
  ∧ (∀ w updateFn, isTransitioning w = false →
       isTransitioning (transitionTo updateFn w) = true
       ∧ isTransitioning (fadeQuizContentAndUpdate updateFn w) = true)
  ∧ (∀ html json es, guard_consistent (run es (init html json))).
Proof.
  split_and!.
  - intros w Hg.
    assert (Hclick : ∀ btn, step (clickStage btn) w = w).
    { intros btn. simpl. unfold stageClick. by rewrite Hg. }
    assert (Htrans : ∀ updateFn, transitionTo updateFn w = w).
    { intros u. unfold transitionTo. by rewrite Hg. }
    split_and!; try done.
    + intros qid aIndex w'. subst w'. by rewrite Hclick.
    + apply Htrans.
    + apply Htrans.
    + simpl. unfold goToStartScreen. by rewrite Hg.
    + simpl. unfold goToStartScreen. by rewrite Hg.
    + intros u. unfold fadeQuizContentAndUpdate. rewrite Htrans, Hg. by case_decide.
    + intros e Hc. destruct e as [| | | |btn|p|p|]; simpl.
      * simpl in Hc. unfold startQuiz in Hc. rewrite Htrans in Hc. congruence.
      * simpl in Hc. unfold restartQuiz in Hc. rewrite Htrans in Hc. congruence.
      * simpl in Hc. unfold goToStartScreen in Hc. rewrite Hg in Hc. congruence.
      * simpl in Hc. unfold goToStartScreen in Hc. rewrite Hg in Hc. congruence.
      * rewrite Hclick in Hc. congruence.
      * by apply (dispatch_stage_clears p _ w).
      * by apply (dispatch_quiz_clears p _ w).
      * simpl in Hc. destruct (timers w); [congruence | done].
  - intros w u Hg. unfold fadeQuizContentAndUpdate, transitionTo.
    case_decide; rewrite Hg; done.
  - intros html json es. apply run_guard_consistent. reflexivity.
Qed.

Lemma C8_guard_blocks_witness :
  isTransitioning sampleFinished = true
  ∧ step (clickStage (Some (answerBtn 0 1))) sampleFinished = sampleFinished
  ∧ completes timeout sampleFinished.
Proof.
  assert (Hg : isTransitioning sampleFinished = true) by (by vm_compute).
  destruct (proj1 C8_guard_blocks sampleFinished Hg)
    as (Hclick & _ & _ & _ & _ & _ & _ & _ & Hclear).
  split_and!; [done | apply Hclick | apply Hclear; by vm_compute].
Defined.

(** ** The question index *)

Lemma buildQuestionsMap_snoc qs q :
  buildQuestionsMap (qs ++ [q]) = <[question_id q := q]> (buildQuestionsMap qs).
Proof. unfold buildQuestionsMap. by rewrite foldl_app. Qed.

Lemma buildQuestionsMap_lookup qs id :
  buildQuestionsMap qs !! id = last (filter (λ q, question_id q = id) qs).
Proof.
  induction qs as [|q qs IH] using rev_ind; [done |].
  rewrite buildQuestionsMap_snoc, filter_app.
  destruct (decide (question_id q = id)) as [Heq|Hne].
  - rewrite filter_cons_True by done. rewrite filter_nil, last_snoc.
    rewrite <- Heq. apply lookup_insert_eq.
  - rewrite filter_cons_False by done. rewrite filter_nil, app_nil_r.
    rewrite lookup_insert_ne by done. apply IH.
Qed.

Lemma buildQuestionsMap_later_wins qs1 q qs2 :
  question_id q ∉ map question_id qs2 →
  buildQuestionsMap (qs1 ++ q :: qs2) !! question_id q = Some q.
Proof.
  intros Hlater. rewrite buildQuestionsMap_lookup, filter_app.
  rewrite filter_cons_True by done.
  assert (Hnil : filter (λ q', question_id q' = question_id q) qs2 = []).
  { induction qs2 as [|q2 qs2 IH]; [done |].
    simpl in Hlater. apply not_elem_of_cons in Hlater as [Hne Hlater].
    rewrite filter_cons_False by congruence. by apply IH. }
  rewrite Hnil. apply last_snoc.
Qed.

(** C9.  [buildQuestionsMap] maps an id to the last question of the list
    that bears it: a question followed by no question of the same id is the
    one its id leads to, whatever comes before it; every question of the
    list has its id in the map, leading to a question of the list with this
    id; ids that no question bears are not in the map; and when the ids are
    distinct, every id leads to its own question. *)
Theorem C9_last_write_wins (qs : list Question) :
  (∀ id, getQuestion (buildQuestionsMap qs) id
         = last (filter (λ q, question_id q = id) qs))
  ∧ (∀ qs1 q qs2, qs = qs1 ++ q :: qs2 →
       question_id q ∉ map question_id qs2 →
       getQuestion (buildQuestionsMap qs) (question_id q) = Some q)
  ∧ (∀ q, q ∈ qs →
       ∃ q', getQuestion (buildQuestionsMap qs) (question_id q) = Some q'
             ∧ question_id q' = question_id q ∧ q' ∈ qs)
  ∧ (∀ id, id ∉ map question_id qs → getQuestion (buildQuestionsMap qs) id = None)
  ∧ (NoDup (map question_id qs) →
       ∀ q, q ∈ qs → getQuestion (buildQuestionsMap qs) (question_id q) = Some q).
Proof.
  unfold getQuestion. split_and!.
  - apply buildQuestionsMap_lookup.
  - intros qs1 q qs2 -> Hlater. by apply buildQuestionsMap_later_wins.
  - intros q Hq. rewrite buildQuestionsMap_lookup.
    destruct (last _) as [q'|] eqn:Hlast.
    + exists q'. apply last_Some_elem_of, list_elem_of_filter in Hlast as [? ?]. done.
    + apply last_None in Hlast. by apply (filter_nil_not_elem_of _ _ q) in Hlast.
  - intros id Hid. rewrite buildQuestionsMap_lookup. apply last_None.
    induction qs as [|q qs IH]; [done |].
    simpl in Hid. apply not_elem_of_cons in Hid as [Hne Hid].
    rewrite filter_cons_False by congruence. by apply IH.
  - intros Hnd q Hq. apply list_elem_of_split in Hq as (qs1 & qs2 & ->).
    apply buildQuestionsMap_later_wins.
    rewrite map_app in Hnd. apply NoDup_app in Hnd as (_ & _ & Hnd).
    simpl in Hnd. by apply NoDup_cons in Hnd as [? _].
Qed.

Lemma C9_last_write_wins_witness :
  getQuestion
    (buildQuestionsMap
       [ {| question_id := 3; question_copy := "early"; answers := [] |};
         {| question_id := 3; question_copy := "late"; answers := [] |};
         {| question_id := 4; question_copy := "other"; answers := [] |} ]) 3
  = Some {| question_id := 3; question_copy := "late"; answers := [] |}.
Proof.
  apply (proj1 (proj2 (C9_last_write_wins _))
           [ {| question_id := 3; question_copy := "early"; answers := [] |} ]
           {| question_id := 3; question_copy := "late"; answers := [] |}
           [ {| question_id := 4; question_copy := "other"; answers := [] |} ]).
  - reflexivity.
  - simpl. intros Hin. apply list_elem_of_singleton in Hin. discriminate.
Defined.

(** ** The results *)

(** C6.  [selectResults] reads the ranking and nothing else: the recommended
    shoe is its first element, if any, and the similar shoes are its second
    and third elements, as far as they exist and in that order. *)
Theorem C6_selectResults (ranked : list RankedShoe) :
  recommended (selectResults ranked) = head ranked
  ∧ similar (selectResults ranked) = take 2 (drop 1 ranked)
  ∧ (∀ i, similar (selectResults ranked) !! i
          = if decide (i < 2)%nat then ranked !! S i else None)
  ∧ match ranked with
    | [] => selectResults ranked = {| recommended := None; similar := [] |}
    | [a] => selectResults ranked = {| recommended := Some a; similar := [] |}
    | [a; b] => selectResults ranked = {| recommended := Some a; similar := [b] |}
    | a :: b :: c :: _ =>
        selectResults ranked = {| recommended := Some a; similar := [b; c] |}
    end
  ∧ (∀ w, let w' := renderResultsScreen w in
          let view := selectResults (rankedShoes (DATA w) (state w)) in
          recommendedSlot (dom w') = option_list (recommended view)
          ∧ similarGrid (dom w') = similar view).
Proof.
  split_and!.
  - by destruct ranked.
  - done.
  - intros i. destruct ranked as [|a [|b [|c rest]]]; simpl;
      destruct i as [|[|i]]; simpl; try done.
    all: case_decide; [lia | done].
  - by destruct ranked as [|a [|b [|c rest]]].
  - done.
Qed.

(** ** Sorting *)

Section js_sort_facts.
Context {A : Type} (cmp : A → A → Z).

Lemma js_sort_insert_perm x l : js_sort_insert cmp x l ≡ₚ x :: l.
Proof.
  induction l as [|y l IH]; simpl; [done |].
  destruct (cmp x y <=? 0); [done |]. rewrite IH. apply Permutation_swap.
Qed.

Lemma js_sort_perm l : js_sort cmp l ≡ₚ l.
Proof.
  induction l as [|x l IH]; simpl; [done |].
  by rewrite js_sort_insert_perm, IH.
Qed.

Hypothesis cmp_total : ∀ a b, may_precede cmp a b ∨ may_precede cmp b a.
Hypothesis cmp_trans : ∀ a b c, may_precede cmp a b → may_precede cmp b c → may_precede cmp a c.

Lemma js_sort_insert_sorted x l :
  StronglySorted (may_precede cmp) l → StronglySorted (may_precede cmp) (js_sort_insert cmp x l).
Proof.
  induction 1 as [|y l Hl IH Hy]; simpl.
  - by repeat constructor.
  - destruct (Z.leb_spec (cmp x y) 0) as [Hle|Hgt].
    + constructor; [by constructor |]. constructor; [done |].
      eapply Forall_impl; [exact Hy |]. intros z Hz. by eapply cmp_trans.
    + constructor; [done |]. rewrite js_sort_insert_perm. constructor; [| done].
      destruct (cmp_total x y) as [Hxy|Hyx]; [unfold may_precede in Hxy; lia | done].
Qed.

Lemma js_sort_sorted l : StronglySorted (may_precede cmp) (js_sort cmp l).
Proof.
  induction l as [|x l IH]; simpl; [constructor |]. by apply js_sort_insert_sorted.
Qed.

Lemma StronglySorted_lookup_lt (R : relation A) l i j a b :
  StronglySorted R l → (i < j)%nat → l !! i = Some a → l !! j = Some b → R a b.
Proof.
  intros Hl. revert i j. induction Hl as [|x l Hl IH Hx]; intros i j Hij Ha Hb.
  - done.
  - destruct j as [|j]; [lia |]. simpl in Hb. destruct i as [|i]; simpl in Ha.
    + injection Ha as ->. rewrite Forall_forall in Hx. apply Hx.
      by eapply list_elem_of_lookup_2.
    + apply (IH i j); [lia | done | done].
Qed.

End js_sort_facts.

(** ** Ranking *)

Lemma compareRanked_may_precede orderIndex a b :
  may_precede (compareRanked orderIndex) a b ↔
  rating b < rating a
  ∨ (rating a = rating b
     ∧ or_0 (orderIndex !! ranked_id a) ≤ or_0 (orderIndex !! ranked_id b)).
Proof. unfold may_precede, compareRanked. case_decide; lia. Qed.

Lemma orderIndexOf_snoc shoes s :
  orderIndexOf (shoes ++ [s])
  = <[shoe_id s := Z.of_nat (length shoes)]> (orderIndexOf shoes).
Proof.
  unfold orderIndexOf. rewrite imap_app, foldl_app. simpl.
  by rewrite Nat.add_0_r.
Qed.

(** With distinct ids, [orderIndex] gives every shoe its position. *)
Lemma orderIndexOf_position shoes p s :
  NoDup (map shoe_id shoes) →
  shoes !! p = Some s →
  orderIndexOf shoes !! shoe_id s = Some (Z.of_nat p).
Proof.
  induction shoes as [|x shoes IH] using rev_ind; intros Hnd Hp; [done |].
  rewrite map_app in Hnd. apply NoDup_app in Hnd as (Hnd & Hfresh & _).
  rewrite orderIndexOf_snoc.
  apply lookup_snoc_Some in Hp as [[Hlt Hp] | [-> ->]].
  - rewrite lookup_insert_ne; [by apply IH |].
    intros Heq. apply (Hfresh (shoe_id s)).
    + change (shoe_id s ∈ shoe_id <$> shoes). apply list_elem_of_fmap_2.
      by eapply list_elem_of_lookup_2.
    + rewrite <- Heq. simpl. by left.
  - apply lookup_insert_eq.
Qed.

Lemma shoes_position_unique shoes p p' s s' :
  NoDup (map shoe_id shoes) →
  shoes !! p = Some s → shoes !! p' = Some s' →
  shoe_id s = shoe_id s' → p = p'.
Proof.
  intros Hnd Hp Hp' Hid.
  apply (NoDup_lookup (map shoe_id shoes) p p' (shoe_id s) Hnd).
  - change ((shoe_id <$> shoes) !! p = Some (shoe_id s)).
    by rewrite list_lookup_fmap, Hp.
  - change ((shoe_id <$> shoes) !! p' = Some (shoe_id s)).
    by rewrite list_lookup_fmap, Hp', Hid.
Qed.

Lemma rankedShoes_perm d st :
  rankedShoes d st ≡ₚ map (withRating (ratings st)) (shoes d).
Proof. apply js_sort_perm. Qed.

Lemma rankedShoes_NoDup d st :
  NoDup (map shoe_id (shoes d)) → NoDup (rankedShoes d st).
Proof.
  intros Hnd. rewrite rankedShoes_perm.
  apply (NoDup_fmap_1 ranked_id).
  change (NoDup (ranked_id <$> (withRating (ratings st) <$> shoes d))).
  rewrite <- list_fmap_compose. exact Hnd.
Qed.

Lemma rankedShoes_sorted d st :
  StronglySorted (may_precede (compareRanked (orderIndexOf (shoes d))))
                 (rankedShoes d st).
Proof.
  apply js_sort_sorted.
  - intros a b. rewrite !compareRanked_may_precede. lia.
  - intros a b c. rewrite !compareRanked_may_precede. lia.
Qed.

(** The ranking does not depend on how [sort] sorts: with distinct ids it
    is the only arrangement of the rated shoes that the comparator allows. *)
Lemma rankedShoes_unique d st l :
  NoDup (map shoe_id (shoes d)) →
  l ≡ₚ map (withRating (ratings st)) (shoes d) →
  StronglySorted (may_precede (compareRanked (orderIndexOf (shoes d)))) l →
  l = rankedShoes d st.
Proof.
  intros Hnd Hperm Hsorted. symmetry.
  apply (StronglySorted_unique_strong
           (may_precede (compareRanked (orderIndexOf (shoes d)))));
    [| apply rankedShoes_sorted | done | by rewrite rankedShoes_perm].
  intros x1 x2 Hx1 Hx2 H12 H21. rewrite rankedShoes_perm in Hx1. rewrite Hperm in Hx2.
  change (map ?f ?l) with (f <$> l) in Hx1, Hx2.
  apply list_elem_of_fmap in Hx1 as (s1 & -> & Hs1).
  apply list_elem_of_fmap in Hx2 as (s2 & -> & Hs2).
  apply list_elem_of_lookup in Hs1 as [p1 Hp1].
  apply list_elem_of_lookup in Hs2 as [p2 Hp2].
  apply compareRanked_may_precede in H12, H21. simpl in H12, H21.
  rewrite (orderIndexOf_position _ _ _ Hnd Hp1) in H12, H21.
  rewrite (orderIndexOf_position _ _ _ Hnd Hp2) in H12, H21.
  simpl in H12, H21. assert (p1 = p2) as -> by lia. congruence.
Qed.

(** Two shoes under one id share rating and [orderIndex]: the shoe listed
    between them is ranked before both. *)
Example rankedShoes_repeated_id :
  map ranked_name
      (rankedShoes
         {| shoes := [ {| shoe_id := "x"; shoe_name := "first" |};
                       {| shoe_id := "y"; shoe_name := "second" |};
                       {| shoe_id := "x"; shoe_name := "third" |} ];
            questions := [] |}
         {| screen := results; currentQuestionId := 0; ratings := [] |})
  = ["second"; "first"; "third"].
Proof. reflexivity. Qed.

(** C1.  [rankedShoes] returns the shoes of the dataset, each once, with
    their ratings.  When the ids of the shoes are distinct, the shoe listed
    at position [pA] stands before the shoe listed at position [pB] in the
    ranking exactly when its rating is greater, or the ratings are equal and
    [pA < pB].  Shoes a, b, c rated 5, 5, 9 are ranked c, a, b. *)
Theorem C1_rank_order (d : Dataset) (st : State) :
  let ranked := rankedShoes d st in
  let score s := or_0 (JsObj.get (ratings st) (shoe_id s)) in
  ranked ≡ₚ map (withRating (ratings st)) (shoes d)
  ∧ length ranked = length (shoes d)
  ∧ (NoDup (map shoe_id (shoes d)) →
     ∀ i j pA pB sA sB,
       shoes d !! pA = Some sA →
       shoes d !! pB = Some sB →
       ranked !! i = Some (withRating (ratings st) sA) →
       ranked !! j = Some (withRating (ratings st) sB) →
       ((i < j)%nat ↔
        score sB < score sA ∨ (score sA = score sB ∧ (pA < pB)%nat)))
  ∧ map ranked_id (rankedShoes abcData abcState) = ["c"; "a"; "b"].
Proof.
  intros ranked score. split_and!.
  - apply rankedShoes_perm.
  - subst ranked. rewrite rankedShoes_perm. apply length_map.
  - intros Hnd i j pA pB sA sB HpA HpB Hi Hj.
    pose proof (rankedShoes_sorted d st) as Hsorted.
    pose proof (rankedShoes_NoDup d st Hnd) as Hnodup.
    pose proof (orderIndexOf_position _ _ _ Hnd HpA) as HoA.
    pose proof (orderIndexOf_position _ _ _ Hnd HpB) as HoB.
    assert (Hord : ∀ i j pA pB sA sB,
              shoes d !! pA = Some sA → shoes d !! pB = Some sB →
              ranked !! i = Some (withRating (ratings st) sA) →
              ranked !! j = Some (withRating (ratings st) sB) →
              (i < j)%nat →
              score sB < score sA ∨ (score sA = score sB ∧ (pA ≤ pB)%nat)).
    { clear i j pA pB sA sB HpA HpB Hi Hj HoA HoB.
      intros i j pA pB sA sB HpA HpB Hi Hj Hij.
      pose proof (StronglySorted_lookup_lt _ _ _ _ _ _ Hsorted Hij Hi Hj) as Hle.
      apply compareRanked_may_precede in Hle. simpl in Hle.
      rewrite (orderIndexOf_position _ _ _ Hnd HpA) in Hle.
      rewrite (orderIndexOf_position _ _ _ Hnd HpB) in Hle.
      simpl in Hle. subst score. simpl. lia. }
    assert (Hsame : pA = pB → i = j).
    { intros ->. rewrite HpA in HpB. injection HpB as ->.
      exact (NoDup_lookup ranked i j _ Hnodup Hi Hj). }
    split.
    + intros Hij. destruct (Hord i j pA pB sA sB HpA HpB Hi Hj Hij) as [?|[? ?]];
        [by left | right].
      split; [done |]. destruct (decide (pA = pB)) as [Heq|?]; [| lia].
      apply Hsame in Heq. lia.
    + intros Hprec. destruct (lt_eq_lt_dec i j) as [[Hlt|Heq]|Hgt]; [done | |].
      * exfalso. subst j. rewrite Hi in Hj. injection Hj as Hid _.
        pose proof (shoes_position_unique _ _ _ _ _ Hnd HpA HpB Hid) as ->.
        rewrite HpA in HpB. injection HpB as ->. lia.
      * exfalso.
        destruct (Hord j i pB pA sB sA HpB HpA Hj Hi Hgt) as [?|[? ?]]; lia.
  - reflexivity.
Qed.

Lemma C1_rank_order_witness :
  (0 < 1)%nat ↔
  or_0 (JsObj.get (ratings abcState) "a") < or_0 (JsObj.get (ratings abcState) "c")
  ∨ (or_0 (JsObj.get (ratings abcState) "c") = or_0 (JsObj.get (ratings abcState) "a")
     ∧ (2 < 0)%nat).
Proof.
  apply (proj1 (proj2 (proj2 (C1_rank_order abcData abcState)))
           ltac:(apply (bool_decide_unpack _); by vm_compute)
           0%nat 1%nat 2%nat 0%nat
           {| shoe_id := "c"; shoe_name := "C" |}
           {| shoe_id := "a"; shoe_name := "A" |});
    reflexivity.
Defined.

(** ** Ranking on the store *)

Lemma js_sort_insert_map {A B} (f : A → B) cmp1 cmp2 x l :
  (∀ a b, cmp1 a b = cmp2 (f a) (f b)) →
  map f (js_sort_insert cmp1 x l) = js_sort_insert cmp2 (f x) (map f l).
Proof.
  intros Hcmp. induction l as [|y l IH]; simpl; [done |].
  rewrite <- Hcmp. destruct (cmp1 x y <=? 0); simpl; [done | by rewrite IH].
Qed.

Lemma js_sort_map {A B} (f : A → B) cmp1 cmp2 l :
  (∀ a b, cmp1 a b = cmp2 (f a) (f b)) →
  map f (js_sort cmp1 l) = js_sort cmp2 (map f l).
Proof.
  intros Hcmp. induction l as [|x l IH]; simpl; [done |].
  by rewrite (js_sort_insert_map f cmp1 cmp2), IH.
Qed.

Section Store_facts.

Lemma contents_extend objs extra ds rt arr :
  Forall (λ r, is_Some (objs !! r)) arr →
  Store.contents {| Store.objects := objs ++ extra; Store.DATA_shoes := ds; Store.state_ratings := rt |} arr
  = Store.contents {| Store.objects := objs; Store.DATA_shoes := ds; Store.state_ratings := rt |} arr.
Proof.
  unfold Store.contents. simpl. induction 1 as [|r arr [o Ho] _ IH]; csimpl; [done |].
  rewrite lookup_app_l by (by eapply lookup_lt_Some). by rewrite Ho, IH.
Qed.

Lemma contents_length h arr :
  Forall (λ r, is_Some (Store.objects h !! r)) arr → length (Store.contents h arr) = length arr.
Proof.
  unfold Store.contents. induction 1 as [|r arr [o Ho] _ IH]; csimpl; [done |].
  rewrite Ho. simpl. by rewrite IH.
Qed.

Lemma stored_shoes_contents h :
  Store.stored_shoes h = map Store.shoe_of (Store.contents h (Store.DATA_shoes h)).
Proof.
  unfold Store.stored_shoes, Store.contents. induction (Store.DATA_shoes h) as [|r arr IH]; csimpl; [done |].
  destruct (Store.objects h !! r); simpl; by rewrite ?IH.
Qed.

(** [.map] appends one ranked copy per element and returns their
    references; it writes nothing else. *)
Lemma map_with_rating_spec arr h :
  Forall (λ r, is_Some (Store.objects h !! r)) arr →
  Store.map_with_rating arr h
  = (seq (length (Store.objects h)) (length arr),
     {| Store.objects := Store.objects h ++ map (Store.spread_with_rating h) (Store.contents h arr);
        Store.DATA_shoes := Store.DATA_shoes h;
        Store.state_ratings := Store.state_ratings h |}).
Proof.
  revert h. induction arr as [|s arr IH]; intros [objs ds rt] Hwf.
  - simpl. by rewrite app_nil_r.
  - apply Forall_cons in Hwf as [[o Ho] Hwf]. simpl in *.
    unfold Store.contents. simpl. rewrite Ho. simpl.
    rewrite IH; simpl.
    + rewrite length_app. simpl. rewrite Nat.add_1_r. f_equal. f_equal.
      rewrite <- app_assoc. simpl. f_equal. f_equal.
      apply (f_equal (map _)). by apply contents_extend.
    + eapply Forall_impl; [exact Hwf |]. intros r [o' Ho'].
      exists o'. rewrite lookup_app_l; [done | by eapply lookup_lt_Some].
Qed.

Lemma omap_of_map {A B C} (f : A → option B) (g : C → B) l l' :
  map f l = map (λ x, Some (g x)) l' → omap f l = map g l'.
Proof.
  revert l'. induction l as [|a l IH]; intros [|c l'] H; csimpl in *; try done.
  injection H as -> H. csimpl. by rewrite (IH _ H).
Qed.

Lemma map_lookup_seq {A} (l pre : list A) :
  map (λ r, (pre ++ l) !! r) (seq (length pre) (length l)) = map Some l.
Proof.
  revert pre. induction l as [|x l IH]; intros pre; [done |]. simpl.
  rewrite list_lookup_middle by done. f_equal.
  specialize (IH (pre ++ [x])). rewrite length_app in IH. simpl in IH.
  rewrite Nat.add_1_r, <- app_assoc in IH. exact IH.
Qed.

(** C10.  [rankedShoes] writes no object that existed: the array
    [DATA.shoes], the Store.objects it designates and [state.ratings] are after
    the call what they were before.  The ranking is a new array of new
    Store.objects, one per shoe and none of them a shoe of [DATA.shoes]; what
    they hold is the value-level ranking, in which a shoe whose id has no
    entry in the ratings has the rating [0]. *)
Theorem C10_rank_is_read_only (h : Store.t) :
  Store.well_formed h →
  let ranked := (Store.rankedShoes h).1 in
  let h' := (Store.rankedShoes h).2 in
  Store.DATA_shoes h' = Store.DATA_shoes h
  ∧ Store.state_ratings h' = Store.state_ratings h
  ∧ (∀ r o, Store.objects h !! r = Some o → Store.objects h' !! r = Some o)
  ∧ Store.contents h' (Store.DATA_shoes h') = Store.contents h (Store.DATA_shoes h)
  ∧ (∀ r, r ∈ ranked → (length (Store.objects h) ≤ r)%nat ∧ r ∉ Store.DATA_shoes h)
  ∧ NoDup ranked
  ∧ length ranked = length (Store.DATA_shoes h)
  ∧ (∀ d st, shoes d = Store.stored_shoes h → ratings st = Store.state_ratings h →
       Store.contents h' ranked = map Store.rankedObj (rankedShoes d st))
  ∧ (∀ r x, r ∈ ranked → Store.objects h' !! r = Some (Store.rankedObj x) →
       rating x = or_0 (JsObj.get (Store.state_ratings h) (ranked_id x))
       ∧ (JsObj.get (Store.state_ratings h) (ranked_id x) = None → rating x = 0)).
Proof.
  intros Hwf ranked h'. subst ranked h'. unfold Store.rankedShoes.
  rewrite (map_with_rating_spec _ _ Hwf). simpl.
  set (n := length (Store.objects h)).
  set (news := map (Store.spread_with_rating h) (Store.contents h (Store.DATA_shoes h))).
  set (h' := {| Store.objects := Store.objects h ++ news; Store.DATA_shoes := Store.DATA_shoes h;
                Store.state_ratings := Store.state_ratings h |}).
  set (cmp := Store.compare_refs (orderIndexOf (Store.stored_shoes h)) h').
  assert (Hperm : js_sort cmp (seq n (length (Store.DATA_shoes h)))
                  ≡ₚ seq n (length (Store.DATA_shoes h))) by apply js_sort_perm.
  assert (Hin : ∀ r, r ∈ js_sort cmp (seq n (length (Store.DATA_shoes h))) →
                     (n ≤ r < n + length (Store.DATA_shoes h))%nat).
  { intros r Hr. rewrite Hperm in Hr. by apply elem_of_seq in Hr. }
  assert (Hview : map (λ r, Store.objects h' !! r)
                      (js_sort cmp (seq n (length (Store.DATA_shoes h))))
                  = map (λ x, Some (Store.rankedObj x))
                        (js_sort (compareRanked (orderIndexOf (Store.stored_shoes h)))
                                 (map (withRating (Store.state_ratings h)) (Store.stored_shoes h)))).
  { set (cmp_opt := λ o1 o2 : option Store.Obj,
           match o1, o2 with
           | Some (Store.rankedObj x), Some (Store.rankedObj y) =>
               compareRanked (orderIndexOf (Store.stored_shoes h)) x y
           | _, _ => 0
           end).
    rewrite (js_sort_map (λ r, Store.objects h' !! r) cmp cmp_opt) by done.
    rewrite (js_sort_map (λ x, Some (Store.rankedObj x)) _ cmp_opt) by done.
    f_equal. subst h' n. simpl.
    rewrite <- (contents_length h (Store.DATA_shoes h) Hwf).
    assert (Hlen : length (Store.contents h (Store.DATA_shoes h)) = length news).
    { subst news. by rewrite length_map. }
    rewrite Hlen, map_lookup_seq. subst news.
    rewrite stored_shoes_contents, !map_map. done. }
  split_and!; try done.
  - intros r o Hr. simpl. rewrite lookup_app_l; [done | by eapply lookup_lt_Some].
  - destruct h as [objs ds rt]. subst h'. simpl in *. by apply contents_extend.
  - intros r Hr. apply Hin in Hr. split; [lia |].
    intros Hd. unfold Store.well_formed in Hwf. rewrite Forall_forall in Hwf.
    apply Hwf, lookup_lt_is_Some in Hd. subst n. lia.
  - rewrite Hperm. apply NoDup_seq.
  - rewrite Hperm. apply length_seq.
  - intros d st Hd Hst. unfold rankedShoes. rewrite Hd, Hst.
    by apply omap_of_map.
  - intros r x Hr Hx.
    assert (Hxin : Some (Store.rankedObj x)
                   ∈ map (λ r, Store.objects h' !! r)
                         (js_sort cmp (seq n (length (Store.DATA_shoes h))))).
    { change (map ?f ?l) with (f <$> l). apply list_elem_of_fmap.
      exists r. split; [symmetry; exact Hx | done]. }
    rewrite Hview in Hxin.
    change (map ?f ?l) with (f <$> l) in Hxin.
    apply list_elem_of_fmap in Hxin as (y & [= ->] & Hy).
    rewrite js_sort_perm in Hy.
    change (map ?f ?l) with (f <$> l) in Hy.
    apply list_elem_of_fmap in Hy as (s & -> & _). simpl.
    split; [done | by intros ->].
Qed.

End Store_facts.

Lemma C10_rank_is_read_only_witness :
  Store.DATA_shoes (Store.rankedShoes sampleStore).2 = Store.DATA_shoes sampleStore
  ∧ Store.state_ratings (Store.rankedShoes sampleStore).2
    = Store.state_ratings sampleStore
  ∧ NoDup (Store.rankedShoes sampleStore).1.
Proof.
  destruct (C10_rank_is_read_only sampleStore) as (H1 & H2 & _ & _ & _ & H3 & _).
  - unfold Store.well_formed. simpl. repeat constructor; by eexists.
  - done.
Defined.

(** The shoe without rating is ranked first, at 0, before the one at -7;
    the two ranked objects are new, after the two shoes of the store. *)
Example rankedShoes_sampleStore :
  (Store.rankedShoes sampleStore).1 = [3; 2]%nat
  ∧ Store.contents (Store.rankedShoes sampleStore).2 (Store.rankedShoes sampleStore).1
    = [ Store.rankedObj {| ranked_id := "Y"; ranked_name := "Shoe Y"; rating := 0 |};
        Store.rankedObj {| ranked_id := "X"; ranked_name := "Shoe X"; rating := -7 |} ].
Proof. by vm_compute. Qed.

(** * Further properties of the program *)

(** ** Runs *)

Lemma run_app es1 es2 w : run (es1 ++ es2) w = run es2 (run es1 w).
Proof. unfold run. apply foldl_app. Qed.

(** A property that boot establishes and every handler keeps holds after
    every run. *)
Lemma run_invariant (P : World → Prop) es w :
  P w → (∀ e w, P w → P (step e w)) → P (run es w).
Proof.
  intros Hw Hstep. revert w Hw. induction es as [|e es IH]; intros w Hw; [done |].
  apply IH. by apply Hstep.
Qed.

(** Handlers are made of five pieces; a property kept by each is kept by
    every event. *)
Lemma step_preserves (P : World → Prop) :
  (∀ u w, P w → P (transitionTo u w)) →
  (∀ qid aIndex w, P w → P (handleAnswerClick qid aIndex w).2) →
  (∀ p l w, P w → P (run_stage_listener p l w)) →
  (∀ p l w, P w → P (run_quiz_listener p l w)) →
  (∀ t ts w, P w → P (run_timer t (set_timers ts w))) →
  ∀ e w, P w → P (step e w).
Proof.
  intros Htrans Hans Hstage Hquiz Htimer e w Hw.
  destruct e as [| | | |btn|p|p|]; simpl.
  - by apply Htrans.
  - by apply Htrans.
  - unfold goToStartScreen. destruct (isTransitioning w); [done | by apply Htrans].
  - unfold goToStartScreen. destruct (isTransitioning w); [done | by apply Htrans].
  - unfold stageClick. destruct (isTransitioning w); [done |].
    destruct btn as [[qid aIndex| | |]|]; try done. by apply Hans.
  - generalize (stageListeners w). intros ls. revert w Hw.
    induction ls as [|l ls IH]; intros w Hw; simpl; [done |]. by apply IH, Hstage.
  - generalize (quizListeners w). intros ls. revert w Hw.
    induction ls as [|l ls IH]; intros w Hw; simpl; [done |]. by apply IH, Hquiz.
  - destruct (timers w) as [|t ts]; [done | by apply Htimer].
Qed.

(** ** The screen of the state is the screen on the page *)

(** X1.  After boot and after every sequence of events, the screen that
    [state.screen] names is the one screen of the page that is not hidden. *)
Theorem state_screen_is_visible html json es :
  visibleScreen (dom (run es (init html json)))
  = screen (state (run es (init html json))).
Proof.
  apply (run_invariant (λ w, visibleScreen (dom w) = screen (state w))); [done |].
  apply step_preserves.
  - intros u w Hw. unfold transitionTo. by destruct (isTransitioning w).
  - intros qid aIndex w Hw. unfold handleAnswerClick.
    destruct (getQuestion _ _) as [q|]; [| done].
    destruct (js_index _ _) as [ans|]; [| done].
    destruct (nextQuestion ans); simpl;
      unfold fadeQuizContentAndUpdate, transitionTo; simpl;
      repeat case_decide; destruct (isTransitioning w); done.
  - intros p l w Hw. unfold run_stage_listener. case_decide; [done |].
    destruct l as [[| |next]|]; simpl; unfold renderQuestionScreen; simpl;
      try destruct (getQuestion _ _); done.
  - intros p l w Hw. unfold run_quiz_listener. case_decide; [done |].
    destruct l as [[| |next]|]; simpl; unfold renderQuestionScreen; simpl;
      try destruct (getQuestion _ _); done.
  - intros [] ts w Hw. done.
Qed.

(** ** Every shoe keeps a rating *)

Lemma applyRatingIncrease_keeps inc r k :
  is_Some (JsObj.get r k) → is_Some (JsObj.get (applyRatingIncrease inc r) k).
Proof.
  destruct inc as [inc|]; [| done]. unfold applyRatingIncrease, JsObj.entries.
  revert r. induction inc as [|[k0 d0] inc IH]; intros r Hr; [done |].
  simpl. apply IH. rewrite get_set. case_decide; [by eexists | done].
Qed.

(** X2.  After boot and after every sequence of events, [state.ratings] has
    an entry for every shoe of the dataset: answers add to the entries and
    never remove one, and every new session starts with all of them.  So the
    rating the ranking gives a shoe is always its entry, never the default of
    [?? 0]. *)
Theorem every_shoe_keeps_a_rating html json es s :
  s ∈ shoes json →
  ∃ v, JsObj.get (ratings (state (run es (init html json)))) (shoe_id s) = Some v
       ∧ rating (withRating (ratings (state (run es (init html json)))) s) = v.
Proof.
  intros Hs.
  assert (Hfresh : is_Some (JsObj.get (createInitialRatings (shoes json)) (shoe_id s))).
  { rewrite createInitialRatings_get. rewrite decide_True; [by eexists |].
    change (shoe_id s ∈ shoe_id <$> shoes json). by apply list_elem_of_fmap_2. }
  assert (Hinv : DATA (run es (init html json)) = json
                 ∧ is_Some (JsObj.get (ratings (state (run es (init html json))))
                                      (shoe_id s))).
  { apply (run_invariant
             (λ w, DATA w = json ∧ is_Some (JsObj.get (ratings (state w)) (shoe_id s))));
      [done |].
    apply step_preserves.
    - intros u w Hw. unfold transitionTo. by destruct (isTransitioning w).
    - intros qid aIndex w [Hd Hw].
      split; [by rewrite (proj1 (handleAnswerClick_frame qid aIndex w)) |].
      unfold handleAnswerClick.
      destruct (getQuestion _ _) as [q|]; [| done].
      destruct (js_index _ _) as [ans|]; [| done].
      pose proof (applyRatingIncrease_keeps (ratingIncrease ans) _ _ Hw).
      destruct (nextQuestion ans); simpl;
        unfold fadeQuizContentAndUpdate, transitionTo; simpl;
        repeat case_decide; destruct (isTransitioning w); done.
    - intros p l w [Hd Hw]. unfold run_stage_listener. case_decide; [done |].
      destruct l as [[| |next]|]; simpl; unfold renderQuestionScreen; simpl;
        try destruct (getQuestion _ _); simpl; rewrite ?Hd; done.
    - intros p l w [Hd Hw]. unfold run_quiz_listener. case_decide; [done |].
      destruct l as [[| |next]|]; simpl; unfold renderQuestionScreen; simpl;
        try destruct (getQuestion _ _); simpl; rewrite ?Hd; done.
    - intros [] ts w Hw. done. }
  destruct Hinv as [_ [v Hv]]. exists v. split; [done |]. simpl. by rewrite Hv.
Qed.

Lemma every_shoe_keeps_a_rating_witness :
  ∃ v, JsObj.get
         (ratings (state (run [ clickStart; transitionendStage "opacity";
                                transitionendStage "opacity";
                                clickStage (Some (answerBtn 0 0)) ]
                              (init blankPage sampleData)))) "Y" = Some v
       ∧ rating (withRating
                   (ratings (state (run [ clickStart; transitionendStage "opacity";
                                          transitionendStage "opacity";
                                          clickStage (Some (answerBtn 0 0)) ]
                                        (init blankPage sampleData))))
                   {| shoe_id := "Y"; shoe_name := "Shoe Y" |}) = v.
Proof.
  apply (every_shoe_keeps_a_rating blankPage sampleData
           [ clickStart; transitionendStage "opacity"; transitionendStage "opacity";
             clickStage (Some (answerBtn 0 0)) ]
           {| shoe_id := "Y"; shoe_name := "Shoe Y" |}).
  unfold sampleData, shoes. right. left.
Defined.

(** ** Answer buttons *)

Lemma buildQuestionsMap_key qs k q :
  buildQuestionsMap qs !! k = Some q → question_id q = k ∧ q ∈ qs.
Proof.
  rewrite buildQuestionsMap_lookup. intros Hlast.
  by apply last_Some_elem_of, list_elem_of_filter in Hlast.
Qed.

Lemma js_index_of_nat {A} (arr : list A) (i : nat) :
  js_index arr (Z.of_nat i) = arr !! i.
Proof.
  unfold js_index. destruct (Z.ltb_spec (Z.of_nat i) 0) as [|_]; [lia |].
  rewrite Nat2Z.id. revert i. induction arr as [|x arr IH]; intros [|i]; simpl; auto.
Qed.

(** X3.  When the question exists in an index built by [buildQuestionsMap],
    [renderQuestionScreen] makes it the current question, shows its text and
    one button per answer, in order; the data attributes of each button lead
    back, through the index and the answers of the question, to the answer
    whose text the button shows. *)
Theorem renderQuestionScreen_round_trip qs w questionId q :
  questionsById w = buildQuestionsMap qs →
  getQuestion (questionsById w) questionId = Some q →
  let w' := renderQuestionScreen questionId w in
  currentQuestionId (state w') = questionId
  ∧ questionText (dom w') = question_copy q
  ∧ length (answerButtons (dom w')) = length (answers q)
  ∧ (∀ i ans, answers q !! i = Some ans →
       ∃ b, answerButtons (dom w') !! i = Some b
            ∧ button_text b = answer_copy ans
            ∧ getQuestion (questionsById w') (data_qid b) = Some q
            ∧ js_index (answers q) (data_aindex b) = Some ans).
Proof.
  intros Hidx Hq w'. subst w'. unfold renderQuestionScreen. rewrite Hq. simpl.
  split_and!; [done | done | apply length_imap |].
  intros i ans Hi. eexists. rewrite list_lookup_imap, Hi. simpl.
  split_and!; [done | done | | simpl; by rewrite js_index_of_nat].
  simpl. unfold getQuestion in Hq. rewrite Hidx in Hq.
  destruct (buildQuestionsMap_key _ _ _ Hq) as [-> _].
  unfold getQuestion. by rewrite Hidx.
Qed.

Lemma renderQuestionScreen_round_trip_witness :
  ∃ b, answerButtons (dom (renderQuestionScreen 0 (init blankPage sampleData))) !! 1%nat
       = Some b
       ∧ button_text b = "for Y"
       ∧ getQuestion (questionsById (renderQuestionScreen 0 (init blankPage sampleData)))
                     (data_qid b)
         = Some {| question_id := 0; question_copy := "First question";
                   answers :=
                     [ {| answer_copy := "for X"; ratingIncrease := Some [("X", 2)];
                          nextQuestion := NextId 1 |};
                       {| answer_copy := "for Y"; ratingIncrease := Some [("Y", 2)];
                          nextQuestion := NextId 1 |} ] |}
       ∧ js_index [ {| answer_copy := "for X"; ratingIncrease := Some [("X", 2)];
                       nextQuestion := NextId 1 |};
                    {| answer_copy := "for Y"; ratingIncrease := Some [("Y", 2)];
                       nextQuestion := NextId 1 |} ] (data_aindex b)
         = Some {| answer_copy := "for Y"; ratingIncrease := Some [("Y", 2)];
                   nextQuestion := NextId 1 |}.
Proof.
  edestruct (renderQuestionScreen_round_trip (questions sampleData)
               (init blankPage sampleData) 0) as (_ & _ & _ & H);
    [reflexivity | by vm_compute |].
  exact (H 1%nat {| answer_copy := "for Y"; ratingIncrease := Some [("Y", 2)];
                     nextQuestion := NextId 1 |} eq_refl).
Defined.

Lemma handleAnswerClick_sets_guard qid aIndex w q ans :
  getQuestion (questionsById w) qid = Some q →
  js_index (answers q) aIndex = Some ans →
  isTransitioning (handleAnswerClick qid aIndex w).2 = true.
Proof.
  intros Hq Ha. unfold handleAnswerClick. rewrite Hq, Ha.
  destruct (nextQuestion ans); simpl;
    unfold fadeQuizContentAndUpdate, transitionTo; simpl;
    repeat case_decide; destruct (isTransitioning w) eqn:Hg; simpl; done.
Qed.

(** X4.  On a page that boots without answer buttons, every answer button
    that is on the page after any sequence of events designates an answer of
    the index, the one whose text it shows.  So a click on a button of the
    page, with no transition pending, is never dropped by the checks of
    [handleAnswerClick]: it adds the increase of that answer to the ratings
    and starts a transition. *)
Theorem rendered_buttons_resolve html json es b :
  answerButtons html = [] →
  let w := run es (init html json) in
  b ∈ answerButtons (dom w) →
  ∃ q ans,
    getQuestion (questionsById w) (data_qid b) = Some q
    ∧ js_index (answers q) (data_aindex b) = Some ans
    ∧ button_text b = answer_copy ans
    ∧ (isTransitioning w = false →
       let w' := step (clickStage (Some (answerBtn (data_qid b) (data_aindex b)))) w in
       ratings (state w')
       = applyRatingIncrease (ratingIncrease ans) (ratings (state w))
       ∧ isTransitioning w' = true).
Proof.
  intros Hhtml w Hb.
  set (idx := buildQuestionsMap (questions json)).
  set (ok := λ b : AnswerButton,
         ∃ q ans, idx !! data_qid b = Some q
                  ∧ js_index (answers q) (data_aindex b) = Some ans
                  ∧ button_text b = answer_copy ans).
  assert (Hinv : questionsById w = idx ∧ Forall ok (answerButtons (dom w))).
  { subst w.
    apply (run_invariant (λ w, questionsById w = idx ∧ Forall ok (answerButtons (dom w)))).
    { split; [done |]. simpl. rewrite Hhtml. constructor. }
    assert (Hrender : ∀ n w0, questionsById w0 = idx ∧ Forall ok (answerButtons (dom w0)) →
              questionsById (renderQuestionScreen n w0) = idx
              ∧ Forall ok (answerButtons (dom (renderQuestionScreen n w0)))).
    { intros n w0 [Hi Hf]. unfold renderQuestionScreen.
      destruct (getQuestion (questionsById w0) n) as [q|] eqn:Hq; simpl;
        [| split; [done | constructor]].
      split; [done |]. apply Forall_lookup_2. intros i b0 Hb0.
      rewrite list_lookup_imap in Hb0.
      destruct (answers q !! i) as [ans|] eqn:Hi'; [| done].
      injection Hb0 as <-. exists q, ans. simpl.
      unfold getQuestion in Hq. rewrite Hi in Hq.
      destruct (buildQuestionsMap_key _ _ _ Hq) as [-> _].
      split_and!; [done | by rewrite js_index_of_nat | done]. }
    apply step_preserves.
    - intros u w0 Hw. unfold transitionTo. by destruct (isTransitioning w0).
    - intros qid aIndex w0 [Hi Hf]. unfold handleAnswerClick.
      destruct (getQuestion _ _) as [q|]; [| done].
      destruct (js_index _ _) as [ans|]; [| done].
      destruct (nextQuestion ans); simpl;
        unfold fadeQuizContentAndUpdate, transitionTo; simpl;
        repeat case_decide; destruct (isTransitioning w0); done.
    - intros p l w0 Hw. unfold run_stage_listener. case_decide; [done |].
      destruct l as [[| |next]|]; simpl; [| done | | done].
      + by apply (Hrender 0 (showOnly quiz (set_state _ (set_stageListeners _ w0)))).
      + by apply (Hrender next (set_stageListeners _ w0)).
    - intros p l w0 Hw. unfold run_quiz_listener. case_decide; [done |].
      destruct l as [[| |next]|]; simpl; [| done | | done].
      + by apply (Hrender 0 (showOnly quiz (set_state _ (set_quizListeners _ w0)))).
      + by apply (Hrender next (set_quizListeners _ w0)).
    - intros [] ts w0 Hw. done. }
  destruct Hinv as [Hidx Hok]. rewrite Forall_forall in Hok.
  destruct (Hok b Hb) as (q & ans & Hq & Ha & Ht).
  exists q, ans. unfold getQuestion. rewrite Hidx.
  split_and!; try done. intros Hg. simpl. unfold stageClick. rewrite Hg.
  assert (Hq' : getQuestion (questionsById w) (data_qid b) = Some q).
  { unfold getQuestion. by rewrite Hidx. }
  split; [exact (handleAnswerClick_ratings _ _ _ _ _ Hq' Ha)
         | exact (handleAnswerClick_sets_guard _ _ _ _ _ Hq' Ha)].
Qed.

Lemma rendered_buttons_resolve_witness :
  ∃ q ans,
    getQuestion (questionsById sampleQuiz) 0 = Some q
    ∧ js_index (answers q) 1 = Some ans
    ∧ "for Y" = answer_copy ans
    ∧ (isTransitioning sampleQuiz = false →
       ratings (state (step (clickStage (Some (answerBtn 0 1))) sampleQuiz))
       = applyRatingIncrease (ratingIncrease ans) (ratings (state sampleQuiz))
       ∧ isTransitioning (step (clickStage (Some (answerBtn 0 1))) sampleQuiz) = true).
Proof.
  apply (rendered_buttons_resolve blankPage sampleData
           [clickStart; transitionendStage "opacity"; transitionendStage "opacity"]
           {| button_text := "for Y"; data_qid := 0; data_aindex := 1 |} eq_refl).
  vm_compute. right. left.
Defined.

(** ** What the ranking depends on *)

(** The ranking reads the ratings at the ids of the shoes, and there only. *)
Lemma rankedShoes_ext d st1 st2 :
  (∀ s, s ∈ shoes d → score (ratings st1) s = score (ratings st2) s) →
  rankedShoes d st1 = rankedShoes d st2.
Proof.
  intros Hsame. unfold rankedShoes. f_equal.
  induction (shoes d) as [|s l IH]; [done |]. simpl. f_equal.
  - unfold withRating. f_equal. apply Hsame. by left.
  - apply IH. intros s' Hs'. apply Hsame. by right.
Qed.

Lemma applyRatingIncrease_other inc r k :
  k ∉ JsObj.keys inc →
  JsObj.get (applyRatingIncrease (Some inc) r) k = JsObj.get r k.
Proof.
  unfold applyRatingIncrease, JsObj.entries.
  revert r. induction inc as [|[k0 d0] inc IH]; intros r Hk; [done |].
  simpl in Hk. apply not_elem_of_cons in Hk as [Hne Hk].
  simpl. rewrite IH by done. rewrite get_set. by rewrite decide_False.
Qed.

(** X5.  As long as the ratings stay within 2^53 in magnitude, the order in
    which two answers are given does not matter: the two orders leave the
    same rating under every id, and so the same ranking.  (The two ratings
    objects may list their keys in different orders.) *)
Theorem answer_order_is_irrelevant inc1 inc2 r :
  NoDup (JsObj.keys inc1) →
  NoDup (JsObj.keys inc2) →
  (∀ k, Z.abs (or_0 (JsObj.get r k)) + Z.abs (or_0 (JsObj.get inc1 k))
        + Z.abs (or_0 (JsObj.get inc2 k)) ≤ 2 ^ 53) →
  let r12 := applyRatingIncrease (Some inc2) (applyRatingIncrease (Some inc1) r) in
  let r21 := applyRatingIncrease (Some inc1) (applyRatingIncrease (Some inc2) r) in
  (∀ k, JsObj.get r12 k = JsObj.get r21 k)
  ∧ (∀ k d1 d2, JsObj.get inc1 k = Some d1 → JsObj.get inc2 k = Some d2 →
       JsObj.get r12 k = Some (or_0 (JsObj.get r k) + d1 + d2))
  ∧ (∀ d scr qid,
       rankedShoes d {| screen := scr; currentQuestionId := qid; ratings := r12 |}
       = rankedShoes d {| screen := scr; currentQuestionId := qid; ratings := r21 |}).
Proof.
  intros Hnd1 Hnd2 Hsafe r12 r21.
  assert (Hget : ∀ k, JsObj.get r12 k = JsObj.get r21 k
                      ∧ ∀ d1 d2, JsObj.get inc1 k = Some d1 →
                                 JsObj.get inc2 k = Some d2 →
                                 JsObj.get r12 k = Some (or_0 (JsObj.get r k) + d1 + d2)).
  { intros k. subst r12 r21. rewrite !applyRatingIncrease_get by done.
    specialize (Hsafe k).
    destruct (JsObj.get inc1 k) as [d1|], (JsObj.get inc2 k) as [d2|];
      cbn [or_0 default from_option id] in *; try done.
    change (default 0 (JsObj.get r k)) with (or_0 (JsObj.get r k)) in *.
    rewrite (js_add_exact (or_0 (JsObj.get r k)) d1) by (unfold safe_integer; lia).
    rewrite (js_add_exact (or_0 (JsObj.get r k)) d2) by (unfold safe_integer; lia).
    rewrite !js_add_exact by (unfold safe_integer; lia).
    split; [f_equal; lia |]. by intros ? ? [= <-] [= <-]. }
  split_and!.
  - intros k. apply Hget.
  - intros k. apply Hget.
  - intros d scr qid. apply rankedShoes_ext. intros s _.
    unfold score. cbn [ratings]. by rewrite (proj1 (Hget _)).
Qed.

Lemma answer_order_is_irrelevant_witness :
  rankedShoes sampleData
    {| screen := quiz; currentQuestionId := 1;
       ratings := applyRatingIncrease (Some [("Y", 2)])
                    (applyRatingIncrease (Some [("X", 5)]) []) |}
  = rankedShoes sampleData
      {| screen := quiz; currentQuestionId := 1;
         ratings := applyRatingIncrease (Some [("X", 5)])
                      (applyRatingIncrease (Some [("Y", 2)]) []) |}.
Proof.
  apply (answer_order_is_irrelevant [("X", 5)] [("Y", 2)] []).
  - apply (bool_decide_unpack _). by vm_compute.
  - apply (bool_decide_unpack _). by vm_compute.
  - intros k. cbn [JsObj.get]. repeat case_decide; by vm_compute.
Defined.

(** Beyond 2^53 the order can matter: from 2^53, giving 1 and then 2 leaves
    2^53 + 2, giving 2 and then 1 leaves 2^53 + 4. *)
Example answer_order_matters_beyond_2_53 :
  JsObj.get (applyRatingIncrease (Some [("A", 2)])
               (applyRatingIncrease (Some [("A", 1)]) [("A", 9007199254740992)])) "A"
  = Some 9007199254740994
  ∧ JsObj.get (applyRatingIncrease (Some [("A", 1)])
                 (applyRatingIncrease (Some [("A", 2)]) [("A", 9007199254740992)])) "A"
    = Some 9007199254740996.
Proof. by vm_compute. Qed.

(** X6.  An increase that names no shoe of the dataset changes no ranking:
    it creates entries in the ratings that the ranking never reads. *)
Theorem unknown_ids_do_not_rank d inc scr qid r :
  (∀ k, k ∈ JsObj.keys inc → k ∉ map shoe_id (shoes d)) →
  rankedShoes d {| screen := scr; currentQuestionId := qid;
                   ratings := applyRatingIncrease (Some inc) r |}
  = rankedShoes d {| screen := scr; currentQuestionId := qid; ratings := r |}.
Proof.
  intros Hout. apply rankedShoes_ext. intros s Hs. unfold score. cbn [ratings].
  rewrite applyRatingIncrease_other; [done |].
  intros Hk. apply (Hout _ Hk).
  change (shoe_id s ∈ shoe_id <$> shoes d). by apply list_elem_of_fmap_2.
Qed.

Lemma unknown_ids_do_not_rank_witness :
  rankedShoes sampleData
    {| screen := quiz; currentQuestionId := 0;
       ratings := applyRatingIncrease (Some [("Z", 100)]) [("X", 1); ("Y", 2)] |}
  = rankedShoes sampleData
      {| screen := quiz; currentQuestionId := 0; ratings := [("X", 1); ("Y", 2)] |}.
Proof.
  apply (unknown_ids_do_not_rank sampleData [("Z", 100)]).
  intros k Hk Hin. apply list_elem_of_singleton in Hk. subst k.
  vm_compute in Hin.
  apply elem_of_cons in Hin as [Hin|Hin]; [discriminate |].
  apply list_elem_of_singleton in Hin. discriminate.
Defined.

(** X7.  Along the ranking the ratings never go up, whatever the ids; so
    the recommended shoe has a rating that no shoe of the dataset exceeds. *)
Theorem ranking_is_by_descending_rating d st :
  (∀ i j a b, (i ≤ j)%nat →
     rankedShoes d st !! i = Some a → rankedShoes d st !! j = Some b →
     rating b ≤ rating a)
  ∧ (∀ top s, recommended (selectResults (rankedShoes d st)) = Some top →
       s ∈ shoes d → score (ratings st) s ≤ rating top).
Proof.
  assert (Hdesc : ∀ i j a b, (i ≤ j)%nat →
            rankedShoes d st !! i = Some a → rankedShoes d st !! j = Some b →
            rating b ≤ rating a).
  { intros i j a b Hij Hi Hj. destruct (decide (i = j)) as [->|Hne].
    - rewrite Hi in Hj. injection Hj as ->. lia.
    - assert (Hlt : (i < j)%nat) by lia.
      pose proof (StronglySorted_lookup_lt _ _ _ _ _ _
                    (rankedShoes_sorted d st) Hlt Hi Hj) as Hle.
      apply compareRanked_may_precede in Hle. lia. }
  split; [done |]. intros top s Htop Hs.
  assert (HsIn : withRating (ratings st) s ∈ rankedShoes d st).
  { rewrite rankedShoes_perm. change (map ?f ?l) with (f <$> l).
    by apply list_elem_of_fmap_2. }
  apply list_elem_of_lookup in HsIn as [j Hj].
  simpl in Htop. rewrite (js_index_of_nat _ 0) in Htop.
  apply (Hdesc 0%nat j top _ ltac:(lia) Htop Hj).
Qed.

Lemma ranking_is_by_descending_rating_witness :
  score (ratings abcState) {| shoe_id := "b"; shoe_name := "B" |}
  ≤ rating {| ranked_id := "c"; ranked_name := "C"; rating := 9 |}.
Proof.
  apply (proj2 (ranking_is_by_descending_rating abcData abcState)).
  - reflexivity.
  - unfold abcData, shoes. right. left.
Defined.

Lemma StronglySorted_of_lookup {A} (R : relation A) (l : list A) :
  (∀ i j a b, (i < j)%nat → l !! i = Some a → l !! j = Some b → R a b) →
  StronglySorted R l.
Proof.
  induction l as [|x l IH]; intros H; constructor.
  - apply IH. intros i j a b Hij Hi Hj. apply (H (S i) (S j) a b); [lia | done | done].
  - apply Forall_lookup_2. intros j b Hj. apply (H 0%nat (S j) x b); [lia | done | done].
Qed.

(** X8.  When all the shoes have the same rating and distinct ids, the
    ranking is the order of the dataset; in particular a session in which no
    answer has scored yet ranks the shoes as data.json lists them, all at 0. *)
Theorem tied_ranking_is_dataset_order d :
  NoDup (map shoe_id (shoes d)) →
  (∀ st,
     (∀ s1 s2, s1 ∈ shoes d → s2 ∈ shoes d →
               score (ratings st) s1 = score (ratings st) s2) →
     rankedShoes d st = map (withRating (ratings st)) (shoes d))
  ∧ rankedShoes d (initialState d)
    = map (λ s, {| ranked_id := shoe_id s; ranked_name := shoe_name s; rating := 0 |})
          (shoes d).
Proof.
  intros Hnd.
  assert (Htied : ∀ st,
            (∀ s1 s2, s1 ∈ shoes d → s2 ∈ shoes d →
                      score (ratings st) s1 = score (ratings st) s2) →
            rankedShoes d st = map (withRating (ratings st)) (shoes d)).
  { intros st Hsame. symmetry. apply rankedShoes_unique; [done | done |].
    apply StronglySorted_of_lookup. intros i j a b Hij Hi Hj.
    change (map ?f ?l) with (f <$> l) in Hi, Hj.
    apply list_lookup_fmap_Some in Hi as (s1 & -> & Hs1).
    apply list_lookup_fmap_Some in Hj as (s2 & -> & Hs2).
    apply compareRanked_may_precede. right. simpl.
    rewrite (orderIndexOf_position _ _ _ Hnd Hs1).
    rewrite (orderIndexOf_position _ _ _ Hnd Hs2). simpl.
    split; [| lia]. apply Hsame; by eapply list_elem_of_lookup_2. }
  split; [done |]. rewrite Htied.
  - apply map_ext_in. intros s _. unfold withRating. f_equal. simpl.
    rewrite createInitialRatings_get. by destruct (decide _).
  - intros s1 s2 _ _. unfold score. simpl. rewrite !createInitialRatings_get.
    by repeat destruct (decide _).
Qed.

Lemma tied_ranking_is_dataset_order_witness :
  rankedShoes sampleData (initialState sampleData)
  = [ {| ranked_id := "X"; ranked_name := "Shoe X"; rating := 0 |};
      {| ranked_id := "Y"; ranked_name := "Shoe Y"; rating := 0 |} ].
Proof.
  apply (proj2 (tied_ranking_is_dataset_order sampleData
                  ltac:(apply (bool_decide_unpack _); by vm_compute))).
Defined.

(** ** Whole transitions *)

Lemma idle_lists w :
  idle w → stageListeners w = [] ∧ quizListeners w = [] ∧ timers w = [].
Proof.
  intros [_ Hp]. unfold pending in Hp.
  split_and!; apply length_zero_iff_nil; lia.
Qed.

(** With the guard set and no listener registered, only the timer acts. *)
Lemma waiting_for_timer_ignores e w :
  isTransitioning w = true → stageListeners w = [] → quizListeners w = [] →
  e ≠ timeout → step e w = w.
Proof.
  intros Hg Hs Hq He. destruct e as [| | | |btn|p|p|]; simpl;
    unfold startQuiz, restartQuiz, goToStartScreen, transitionTo, stageClick;
    rewrite ?Hg, ?Hs, ?Hq; done.
Qed.

(** X9.  From a world with nothing in flight, a click on an answer that ends
    the quiz, followed by whatever clicks and transition ends, and then by
    the timer, leaves the results screen with nothing in flight: the ratings
    are the former ones plus the increase of the answer, and the page shows
    the first shoe of their ranking as recommended and the next two as
    similar.  Nothing that happens while the loading screen is up changes
    this. *)
Theorem finishing_answer_leads_to_results w qid aIndex q ans noise :
  idle w →
  getQuestion (questionsById w) qid = Some q →
  js_index (answers q) aIndex = Some ans →
  is_terminal (nextQuestion ans) = true →
  Forall (λ e, e ≠ timeout) noise →
  let w' := run (clickStage (Some (answerBtn qid aIndex)) :: noise ++ [timeout]) w in
  idle w'
  ∧ screen (state w') = results
  ∧ visibleScreen (dom w') = results
  ∧ ratings (state w') = applyRatingIncrease (ratingIncrease ans) (ratings (state w))
  ∧ currentQuestionId (state w') = currentQuestionId (state w)
  ∧ recommendedSlot (dom w')
    = option_list (recommended (selectResults (rankedShoes (DATA w) (state w'))))
  ∧ similarGrid (dom w') = similar (selectResults (rankedShoes (DATA w) (state w'))).
Proof.
  intros Hidle Hq Ha Hterm Hnoise w'.
  destruct (idle_lists w Hidle) as (Hs & Hl & Ht). destruct Hidle as [Hg _].
  set (w1 := step (clickStage (Some (answerBtn qid aIndex))) w).
  assert (Hw1 : w1 = set_timers [resultsTimer]
                       (showOnly loading
                          (set_isTransitioning true
                             (set_state
                                (set_ratings
                                   (applyRatingIncrease (ratingIncrease ans)
                                                        (ratings (state w)))
                                   (state w)) w)))).
  { subst w1. simpl. unfold stageClick, handleAnswerClick. rewrite Hg, Hq, Ha.
    destruct (nextQuestion ans); try discriminate; simpl; rewrite Hg, Ht; done. }
  assert (Hwait : run noise w1 = w1).
  { induction Hnoise as [|e noise He _ IH]; [done |]. simpl.
    rewrite waiting_for_timer_ignores; [done | by rewrite Hw1 | by rewrite Hw1
                                        | by rewrite Hw1 | done]. }
  subst w'. change (run (?e :: ?es) w) with (run es (step e w)).
  rewrite run_app. fold w1. rewrite Hwait, Hw1. simpl.
  unfold idle, pending. simpl. rewrite Hs, Hl. done.
Qed.

Lemma finishing_answer_leads_to_results_witness :
  screen (state (run (clickStage (Some (answerBtn 1 0))
                        :: [clickMenu; transitionendStage "opacity"; clickStart]
                        ++ [timeout]) sampleQuestion1)) = results.
Proof.
  edestruct (finishing_answer_leads_to_results sampleQuestion1 1 0) as (_ & H & _);
    [split; by vm_compute | by vm_compute | by vm_compute | reflexivity | | exact H].
  repeat constructor; discriminate.
Defined.

(** The two ends of a fade, one listener at a time. *)
Lemma quiz_fade_out_ends u w :
  quizListeners w = [onFadeOutEnd u] →
  step (transitionendQuiz "opacity") w
  = let w' := run_update u (set_quizListeners [] w) in
    set_quizListeners [onFadeInEnd] (set_dom (set_quiz_is_fading false (dom w')) w').
Proof.
  intros Hl. simpl. rewrite Hl. simpl. unfold run_quiz_listener.
  rewrite decide_False by (intros H; by apply H).
  rewrite Hl, remove_listener_head. simpl.
  destruct (run_update_keeps u (set_quizListeners [] w)) as (_ & _ & Hk & _).
  by rewrite Hk.
Qed.

Lemma quiz_fade_in_ends w :
  quizListeners w = [onFadeInEnd] →
  step (transitionendQuiz "opacity") w
  = set_isTransitioning false (set_quizListeners [] w).
Proof.
  intros Hl. simpl. rewrite Hl. simpl. unfold run_quiz_listener.
  rewrite decide_False by (intros H; by apply H).
  by rewrite Hl, remove_listener_head.
Qed.

Lemma stage_fade_out_ends u w :
  stageListeners w = [onOutEnd u] →
  step (transitionendStage "opacity") w
  = let w' := run_update u (set_stageListeners [] w) in
    set_stageListeners [onInEnd] (set_dom (set_stage_is_out false (dom w')) w').
Proof.
  intros Hl. simpl. rewrite Hl. simpl. unfold run_stage_listener.
  rewrite decide_False by (intros H; by apply H).
  rewrite Hl, remove_listener_head. simpl.
  destruct (run_update_keeps u (set_stageListeners [] w)) as (_ & Hk & _ & _).
  by rewrite Hk.
Qed.

Lemma stage_fade_in_ends w :
  stageListeners w = [onInEnd] →
  step (transitionendStage "opacity") w
  = set_isTransitioning false (set_stageListeners [] w).
Proof.
  intros Hl. simpl. rewrite Hl. simpl. unfold run_stage_listener.
  rewrite decide_False by (intros H; by apply H).
  by rewrite Hl, remove_listener_head.
Qed.

(** X10.  From the quiz screen with nothing in flight, a click on an answer
    that names a next question fades the quiz content out and in again: the
    old question stays on the page while its content fades out, the content
    is replaced when the fade-out ends, and the guard is held until the
    fade-in ends.  Then the ratings hold the increase of the answer and the
    page shows the next question with one button per answer.  When no
    question bears the id, the page reads "Question not found." with no
    button at all, and the current question id is the former one. *)
Theorem continuing_answer_shows_next_question w qid aIndex q ans next :
  idle w →
  screen (state w) = quiz →
  getQuestion (questionsById w) qid = Some q →
  js_index (answers q) aIndex = Some ans →
  nextQuestion ans = NextId next →
  let w1 := step (clickStage (Some (answerBtn qid aIndex))) w in
  let w2 := step (transitionendQuiz "opacity") w1 in
  let w3 := step (transitionendQuiz "opacity") w2 in
  (isTransitioning w1 = true
   ∧ quiz_is_fading (dom w1) = true
   ∧ questionText (dom w1) = questionText (dom w)
   ∧ answerButtons (dom w1) = answerButtons (dom w))
  ∧ (isTransitioning w2 = true
     ∧ quiz_is_fading (dom w2) = false
     ∧ answerButtons (dom w2) = answerButtons (dom w3))
  ∧ idle w3
  ∧ screen (state w3) = quiz
  ∧ ratings (state w3) = applyRatingIncrease (ratingIncrease ans) (ratings (state w))
  ∧ match getQuestion (questionsById w) next with
    | Some q' =>
        currentQuestionId (state w3) = next
        ∧ questionText (dom w3) = question_copy q'
        ∧ map button_text (answerButtons (dom w3)) = map answer_copy (answers q')
    | None =>
        currentQuestionId (state w3) = currentQuestionId (state w)
        ∧ questionText (dom w3) = "Question not found."
        ∧ answerButtons (dom w3) = []
    end.
Proof.
  intros Hidle Hscreen Hq Ha Hnext w1 w2 w3.
  destruct (idle_lists w Hidle) as (Hs & Hl & Ht). destruct Hidle as [Hg _].
  assert (Hw1 : w1 = set_quizListeners [onFadeOutEnd (questionUpdate next)]
                       (set_dom (set_quiz_is_fading true (dom w))
                          (set_isTransitioning true
                             (set_state
                                (set_ratings
                                   (applyRatingIncrease (ratingIncrease ans)
                                                        (ratings (state w)))
                                   (state w)) w)))).
  { subst w1. simpl. unfold stageClick, handleAnswerClick. rewrite Hg, Hq, Ha, Hnext.
    unfold fadeQuizContentAndUpdate. simpl. rewrite decide_False by (by rewrite Hscreen; auto).
    rewrite Hg. simpl. by rewrite Hl. }
  subst w3 w2. rewrite Hw1.
  rewrite (quiz_fade_out_ends (questionUpdate next)) by done.
  cbv zeta. rewrite quiz_fade_in_ends by done.
  unfold run_update, renderQuestionScreen, idle, pending. simpl.
  destruct (getQuestion (questionsById w) next) as [q'|]; simpl; rewrite Hs, Ht;
    split_and!; try done.
  change (map ?f ?l) with (f <$> l). rewrite fmap_imap, <- imap_const.
  by apply imap_ext.
Qed.

Lemma continuing_answer_shows_next_question_witness :
  currentQuestionId
    (state (step (transitionendQuiz "opacity")
              (step (transitionendQuiz "opacity")
                 (step (clickStage (Some (answerBtn 0 0))) sampleQuiz)))) = 1.
Proof.
  edestruct (continuing_answer_shows_next_question sampleQuiz 0 0)
    as (_ & _ & _ & _ & _ & H);
    [split; by vm_compute | by vm_compute | by vm_compute | by vm_compute
     | reflexivity |].
  vm_compute in H. destruct H as (H & _). vm_compute. exact H.
Defined.

Lemma button_texts q :
  map button_text
      (imap (λ idx ans, {| button_text := answer_copy ans;
                           data_qid := question_id q;
                           data_aindex := Z.of_nat idx |}) (answers q))
  = map answer_copy (answers q).
Proof.
  change (map ?f ?l) with (f <$> l). rewrite fmap_imap, <- imap_const.
  by apply imap_ext.
Qed.

(** X11.  From a world with nothing in flight, [Start] or [Restart] fades
    the stage out and in again.  The session is replaced when the fade-out
    ends, while the stage is hidden, and the guard is held until the fade-in
    ends.  Then the state is a new session on the quiz screen -- question id
    0 and a rating of 0 for the shoes, whatever the session before held --
    and the page shows question 0, or "Question not found." without buttons
    when the dataset has no question 0. *)
Theorem start_gives_a_fresh_quiz w e :
  idle w →
  e = clickStart ∨ e = clickRestart →
  let w1 := step e w in
  let w2 := step (transitionendStage "opacity") w1 in
  let w3 := step (transitionendStage "opacity") w2 in
  (isTransitioning w1 = true ∧ stage_is_out (dom w1) = true ∧ state w1 = state w)
  ∧ (isTransitioning w2 = true ∧ stage_is_out (dom w2) = false ∧ state w2 = state w3)
  ∧ idle w3
  ∧ state w3 = {| screen := quiz; currentQuestionId := 0;
                  ratings := createInitialRatings (shoes (DATA w)) |}
  ∧ visibleScreen (dom w3) = quiz
  ∧ match getQuestion (questionsById w) 0 with
    | Some q0 =>
        questionText (dom w3) = question_copy q0
        ∧ map button_text (answerButtons (dom w3)) = map answer_copy (answers q0)
    | None =>
        questionText (dom w3) = "Question not found."
        ∧ answerButtons (dom w3) = []
    end.
Proof.
  intros Hidle He w1 w2 w3.
  destruct (idle_lists w Hidle) as (Hs & Hl & Ht). destruct Hidle as [Hg _].
  assert (Hw1 : w1 = set_stageListeners [onOutEnd quizUpdate]
                       (set_dom (set_stage_is_out true (dom w))
                          (set_isTransitioning true w))).
  { subst w1. destruct He as [-> | ->]; simpl;
      unfold startQuiz, restartQuiz, transitionTo; rewrite Hg; simpl; by rewrite Hs. }
  subst w3 w2. rewrite Hw1.
  rewrite (stage_fade_out_ends quizUpdate) by done.
  cbv zeta. rewrite stage_fade_in_ends by done.
  unfold run_update, renderQuestionScreen, showOnly, idle, pending. simpl.
  destruct (getQuestion (questionsById w) 0) as [q0|]; simpl; rewrite Hl, Ht;
    split_and!; try done.
  apply button_texts.
Qed.

Lemma start_gives_a_fresh_quiz_witness :
  state (step (transitionendStage "opacity")
           (step (transitionendStage "opacity") (step clickRestart sampleFinishedResults)))
  = {| screen := quiz; currentQuestionId := 0;
       ratings := createInitialRatings (shoes (DATA sampleFinishedResults)) |}.
Proof.
  edestruct (start_gives_a_fresh_quiz sampleFinishedResults clickRestart)
    as (_ & _ & _ & H & _); [split; by vm_compute | by right | exact H].
Defined.

(** X12.  From a world with nothing in flight, the menu or the logo fades
    the stage out and in again and leaves the start screen with a new
    session: all that the former session held is gone.  The question and the
    result tiles that were rendered stay in the hidden screens. *)
Theorem home_resets_the_session w e :
  idle w →
  e = clickMenu ∨ e = clickLogo →
  let w3 := run [e; transitionendStage "opacity"; transitionendStage "opacity"] w in
  idle w3
  ∧ state w3 = initialState (DATA w)
  ∧ visibleScreen (dom w3) = start
  ∧ stage_is_out (dom w3) = false
  ∧ questionText (dom w3) = questionText (dom w)
  ∧ answerButtons (dom w3) = answerButtons (dom w)
  ∧ recommendedSlot (dom w3) = recommendedSlot (dom w)
  ∧ similarGrid (dom w3) = similarGrid (dom w).
Proof.
  intros Hidle He w3.
  destruct (idle_lists w Hidle) as (Hs & Hl & Ht). destruct Hidle as [Hg _].
  assert (Hw1 : step e w = set_stageListeners [onOutEnd homeUpdate]
                             (set_dom (set_stage_is_out true (dom w))
                                (set_isTransitioning true w))).
  { destruct He as [-> | ->]; simpl;
      unfold goToStartScreen, transitionTo; rewrite Hg; simpl; by rewrite Hs. }
  subst w3. unfold run. cbn [foldl]. rewrite Hw1.
  rewrite (stage_fade_out_ends homeUpdate (set_stageListeners _ _)) by done.
  cbv zeta. rewrite stage_fade_in_ends by done.
  unfold run_update, showOnly, idle, pending. simpl. rewrite Hl, Ht.
  split_and!; done.
Qed.

Lemma home_resets_the_session_witness :
  state (run [clickLogo; transitionendStage "opacity"; transitionendStage "opacity"]
             sampleQuestion1)
  = initialState (DATA sampleQuestion1).
Proof.
  edestruct (home_resets_the_session sampleQuestion1 clickLogo) as (_ & H & _);
    [split; by vm_compute | by right | exact H].
Defined.

(** ** The loading screen *)

Lemma step_loading_timer e w :
  guard_consistent w →
  (timers w = [] ∧ screen (state w) ≠ loading)
  ∨ (timers w = [resultsTimer] ∧ screen (state w) = loading) →
  (timers (step e w) = [] ∧ screen (state (step e w)) ≠ loading)
  ∨ (timers (step e w) = [resultsTimer] ∧ screen (state (step e w)) = loading).
Proof.
  unfold guard_consistent, pending.
  destruct (isTransitioning w) eqn:Hg; intros Hinv Hload.
  - (* a transition is in flight *)
    destruct e as [| | | |btn|p|p|]; simpl;
      unfold startQuiz, restartQuiz, goToStartScreen, transitionTo, stageClick;
      rewrite ?Hg; try done.
    + destruct (stageListeners w) as [|l [|l' ls]] eqn:Hs; simpl in *; [done | | lia].
      assert (Ht : timers w = []) by (apply length_zero_iff_nil; lia).
      destruct Hload as [[_ Hscr] | [Ht' _]]; [| congruence].
      unfold run_stage_listener. case_decide; [by left |].
      rewrite Hs, remove_listener_head. left.
      destruct l as [[| |next]|]; simpl; unfold renderQuestionScreen; simpl;
        try destruct (getQuestion _ _); simpl; done.
    + destruct (quizListeners w) as [|l [|l' ls]] eqn:Hs; simpl in *; [done | | lia].
      assert (Ht : timers w = []) by (apply length_zero_iff_nil; lia).
      destruct Hload as [[_ Hscr] | [Ht' _]]; [| congruence].
      unfold run_quiz_listener. case_decide; [by left |].
      rewrite Hs, remove_listener_head. left.
      destruct l as [[| |next]|]; simpl; unfold renderQuestionScreen; simpl;
        try destruct (getQuestion _ _); simpl; done.
    + destruct (timers w) as [|[] [|t' ts]] eqn:Ht; simpl in *;
        [by rewrite Ht | | lia].
      by left.
  - (* nothing is in flight *)
    assert (Hs : stageListeners w = []) by (apply length_zero_iff_nil; lia).
    assert (Hq : quizListeners w = []) by (apply length_zero_iff_nil; lia).
    assert (Ht : timers w = []) by (apply length_zero_iff_nil; lia).
    destruct Hload as [[_ Hscr] | [Ht' _]]; [| congruence].
    destruct e as [| | | |btn|p|p|]; simpl;
      unfold startQuiz, restartQuiz, goToStartScreen, transitionTo, stageClick;
      rewrite ?Hg, ?Hs, ?Hq, ?Ht; simpl; try (by left).
    destruct btn as [[qid aIndex| | |]|]; try (by left).
    unfold handleAnswerClick.
    destruct (getQuestion _ _) as [q|]; [| by left].
    destruct (js_index _ _) as [ans|]; [| by left].
    destruct (nextQuestion ans); simpl; rewrite ?Hg; simpl;
      unfold fadeQuizContentAndUpdate, transitionTo; simpl;
      try case_decide; rewrite ?Hg; simpl; rewrite ?Ht;
      first [by right | by left].
Qed.

(** X13.  After boot and after every sequence of events, the loading
    screen is the current screen exactly while the timer of the results is
    pending; nothing else is in flight then, and the timer leaves the
    results screen with nothing in flight.  The quiz cannot stay on the
    loading screen once the timer has fired. *)
Theorem loading_screen_is_left_by_the_timer html json es :
  let w := run es (init html json) in
  (screen (state w) = loading ↔ timers w = [resultsTimer])
  ∧ (screen (state w) ≠ loading ↔ timers w = [])
  ∧ (screen (state w) = loading →
       isTransitioning w = true
       ∧ stageListeners w = []
       ∧ quizListeners w = []
       ∧ screen (state (step timeout w)) = results
       ∧ idle (step timeout w)).
Proof.
  intros w.
  assert (Hinv : guard_consistent w
                 ∧ ((timers w = [] ∧ screen (state w) ≠ loading)
                    ∨ (timers w = [resultsTimer] ∧ screen (state w) = loading))).
  { subst w.
    apply (run_invariant
             (λ w, guard_consistent w
                   ∧ ((timers w = [] ∧ screen (state w) ≠ loading)
                      ∨ (timers w = [resultsTimer] ∧ screen (state w) = loading)))).
    - split; [reflexivity | by left].
    - intros e w [Hc Hl]. split; [by apply step_guard_consistent
                                 | by apply step_loading_timer]. }
  destruct Hinv as [Hc Hload]. split_and!.
  - destruct Hload as [[Ht Hs] | [Ht Hs]]; split; congruence.
  - destruct Hload as [[Ht Hs] | [Ht Hs]]; split; congruence.
  - intros Hscr. destruct Hload as [[_ Hs] | [Ht _]]; [done |].
    unfold guard_consistent, pending in Hc. rewrite Ht in Hc. simpl in Hc.
    destruct (isTransitioning w) eqn:Hg; [| lia].
    assert (Hsl : stageListeners w = []) by (apply length_zero_iff_nil; lia).
    assert (Hql : quizListeners w = []) by (apply length_zero_iff_nil; lia).
    split_and!; try done.
    + simpl. by rewrite Ht.
    + simpl. rewrite Ht. unfold idle, pending. simpl. by rewrite Hsl, Hql.
Qed.

(** ** The results page *)

(** X14.  [renderResultsScreen] writes the summary and the two tile
    containers of the results page and nothing else: the state, the guard,
    the listeners, the timers, the visible screen, the fade classes and the
    rendered question are those of before.  With [n] shoes in the dataset the
    page shows [min 1 n] recommended tile, the first shoe of the ranking,
    and [min 2 (n - 1)] similar tiles, the second and third; the summary
    names the recommended shoe and the first similar one, the recommended
    shoe alone when the dataset has one shoe, and is empty when it has
    none. *)
Theorem results_page_tiles w :
  let w' := renderResultsScreen w in
  let n := length (shoes (DATA w)) in
  let ranked := rankedShoes (DATA w) (state w) in
  w' = set_dom (set_results (summaryText (dom w')) (recommendedSlot (dom w'))
                            (similarGrid (dom w')) (dom w)) w
  ∧ DATA w' = DATA w
  ∧ questionsById w' = questionsById w
  ∧ state w' = state w
  ∧ isTransitioning w' = isTransitioning w
  ∧ stageListeners w' = stageListeners w
  ∧ quizListeners w' = quizListeners w
  ∧ timers w' = timers w
  ∧ visibleScreen (dom w') = visibleScreen (dom w)
  ∧ stage_is_out (dom w') = stage_is_out (dom w)
  ∧ quiz_is_fading (dom w') = quiz_is_fading (dom w)
  ∧ questionText (dom w') = questionText (dom w)
  ∧ answerButtons (dom w') = answerButtons (dom w)
  ∧ recommendedSlot (dom w') = option_list (head ranked)
  ∧ similarGrid (dom w') = take 2 (drop 1 ranked)
  ∧ length (recommendedSlot (dom w')) = (n `min` 1)%nat
  ∧ length (similarGrid (dom w')) = ((n - 1) `min` 2)%nat
  ∧ summaryText (dom w')
    = match ranked with
      | [] => summaryEmpty
      | [a] => summaryOne (ranked_name a)
      | a :: b :: _ => summaryTwo (ranked_name a) (ranked_name b)
      end
  ∧ (summaryText (dom w') = summaryEmpty ↔ n = 0%nat).
Proof.
  intros w' n ranked. subst w' n ranked. unfold renderResultsScreen. simpl.
  assert (Hlen : length (rankedShoes (DATA w) (state w)) = length (shoes (DATA w))).
  { rewrite rankedShoes_perm. apply length_map. }
  destruct (rankedShoes (DATA w) (state w)) as [|a [|b [|c rest]]];
    simpl in *; rewrite <- Hlen; split_and!; try done; try lia.
Qed.

Lemma results_page_tiles_example :
  summaryText (dom sampleFinishedResults) = summaryTwo "Shoe X" "Shoe Y"
  ∧ map ranked_id (recommendedSlot (dom sampleFinishedResults)) = ["X"]
  ∧ map ranked_id (similarGrid (dom sampleFinishedResults)) = ["Y"].
Proof. by vm_compute. Qed.

(** ** The older variant *)

Lemma older_run_update_keeps updateFn w :
  Older.isTransitioning (Older.run_update updateFn w) = Older.isTransitioning w
  ∧ Older.stageListeners (Older.run_update updateFn w) = Older.stageListeners w
  ∧ Older.quizListeners (Older.run_update updateFn w) = Older.quizListeners w
  ∧ Older.timers (Older.run_update updateFn w) = Older.timers w.
Proof.
  destruct updateFn;
    unfold Older.run_update, Older.renderQuestionScreen, Older.showOnly; simpl;
    try destruct (getQuestion _ _); done.
Qed.

Lemma older_stage_fade_out_ends u w :
  Older.stageListeners w = [Older.onOutEnd u] →
  Older.step (transitionendStage "opacity") w
  = let w' := Older.run_update u (Older.set_stageListeners [] w) in
    Older.set_stageListeners [Older.onInEnd]
      (Older.set_dom (set_stage_is_out false (Older.dom w')) w').
Proof.
  intros Hl. simpl. rewrite Hl. simpl. unfold Older.run_stage_listener.
  rewrite decide_False by (intros H; by apply H).
  rewrite Hl, remove_listener_head. simpl.
  destruct (older_run_update_keeps u (Older.set_stageListeners [] w)) as (_ & Hk & _ & _).
  by rewrite Hk.
Qed.

Lemma older_stage_fade_in_ends w :
  Older.stageListeners w = [Older.onInEnd] →
  Older.step (transitionendStage "opacity") w
  = Older.set_isTransitioning false (Older.set_stageListeners [] w).
Proof.
  intros Hl. simpl. rewrite Hl. simpl. unfold Older.run_stage_listener.
  rewrite decide_False by (intros H; by apply H).
  by rewrite Hl, remove_listener_head.
Qed.

(** The click that ends the quiz, in the older variant: the fade to the
    loading screen is started and the timer is set, at once. *)
Lemma older_finishing_click w qid aIndex q ans :
  Older.idle w →
  getQuestion (Older.questionsById w) qid = Some q →
  js_index (answers q) aIndex = Some ans →
  is_terminal (nextQuestion ans) = true →
  Older.step (clickStage (Some (answerBtn qid aIndex))) w
  = Older.set_timers [resultsTimer]
      (Older.set_stageListeners [Older.onOutEnd Older.loadingUpdate]
         (Older.set_dom (set_stage_is_out true (Older.dom w))
            (Older.set_isTransitioning true
               (Older.set_state
                  (set_ratings
                     (applyRatingIncrease (ratingIncrease ans)
                                          (ratings (Older.state w)))
                     (Older.state w)) w)))).
Proof.
  intros (Hg & Hs & Hl & Ht) Hq Ha Hterm. simpl.
  unfold Older.stageClick, Older.handleAnswerClick. rewrite Hg, Hq, Ha.
  destruct (nextQuestion ans); try discriminate;
    unfold Older.transitionTo; simpl; rewrite Hg; simpl; rewrite Hs, Ht; done.
Qed.

(** X15.  In the older variant, when the timer fires after the loading
    screen has faded in, a second fade leads to the results screen: the
    ratings hold the increase of the last answer and the page shows the
    first shoe of their ranking as recommended. *)
Theorem older_results_after_the_loading_fade w qid aIndex q ans :
  Older.idle w →
  getQuestion (Older.questionsById w) qid = Some q →
  js_index (answers q) aIndex = Some ans →
  is_terminal (nextQuestion ans) = true →
  let w' := Older.run [ clickStage (Some (answerBtn qid aIndex));
                        transitionendStage "opacity"; transitionendStage "opacity";
                        timeout;
                        transitionendStage "opacity"; transitionendStage "opacity" ] w in
  Older.idle w'
  ∧ screen (Older.state w') = results
  ∧ visibleScreen (Older.dom w') = results
  ∧ ratings (Older.state w')
    = applyRatingIncrease (ratingIncrease ans) (ratings (Older.state w))
  ∧ recommendedSlot (Older.dom w')
    = option_list (recommended (selectResults
                                  (rankedShoes (Older.DATA w) (Older.state w'))))
  ∧ similarGrid (Older.dom w')
    = similar (selectResults (rankedShoes (Older.DATA w) (Older.state w'))).
Proof.
  intros Hidle Hq Ha Hterm w'. subst w'. unfold Older.run. cbn [foldl].
  rewrite (older_finishing_click _ _ _ _ _ Hidle Hq Ha Hterm).
  destruct Hidle as (Hg & Hs & Hl & Ht).
  destruct w as [D idx st g sl ql ts dm]. simpl in Hg, Hs, Hl, Ht. subst g sl ql ts.
  cbv -[applyRatingIncrease rankedShoes selectResults option_list].
  split_and!; reflexivity.
Qed.

Lemma older_results_after_the_loading_fade_witness :
  screen (Older.state
            (Older.run [ clickStage (Some (answerBtn 1 0));
                         transitionendStage "opacity"; transitionendStage "opacity";
                         timeout;
                         transitionendStage "opacity"; transitionendStage "opacity" ]
                       olderQuestion1)) = results.
Proof.
  edestruct (older_results_after_the_loading_fade olderQuestion1 1 0) as (_ & H & _);
    [by vm_compute | by vm_compute | by vm_compute | reflexivity | exact H].
Defined.

Lemma older_idle_ignores e w :
  Older.idle w →
  e = timeout ∨ (∃ p, e = transitionendStage p) ∨ (∃ p, e = transitionendQuiz p) →
  Older.step e w = w.
Proof.
  intros (Hg & Hs & Hl & Ht) [-> | [[p ->] | [p ->]]]; simpl; by rewrite ?Hs, ?Hl, ?Ht.
Qed.

(** X16.  In the older variant, when the timer fires before the fade to the
    loading screen has ended -- before it has begun to fade in, or before it
    has finished -- [transitionTo] refuses the results and the timer is
    spent: once the fade ends, the loading screen is up with nothing in
    flight, the results page has not been written, and no timer or
    transition end will ever change that. *)
Theorem older_early_timer_loses_the_results w qid aIndex q ans early :
  Older.idle w →
  getQuestion (Older.questionsById w) qid = Some q →
  js_index (answers q) aIndex = Some ans →
  is_terminal (nextQuestion ans) = true →
  early = [timeout; transitionendStage "opacity"; transitionendStage "opacity"]
  ∨ early = [transitionendStage "opacity"; timeout; transitionendStage "opacity"] →
  let w' := Older.run (clickStage (Some (answerBtn qid aIndex)) :: early) w in
  Older.idle w'
  ∧ screen (Older.state w') = loading
  ∧ visibleScreen (Older.dom w') = loading
  ∧ ratings (Older.state w')
    = applyRatingIncrease (ratingIncrease ans) (ratings (Older.state w))
  ∧ summaryText (Older.dom w') = summaryText (Older.dom w)
  ∧ recommendedSlot (Older.dom w') = recommendedSlot (Older.dom w)
  ∧ similarGrid (Older.dom w') = similarGrid (Older.dom w)
  ∧ (∀ es,
       Forall (λ e, e = timeout ∨ (∃ p, e = transitionendStage p)
                    ∨ (∃ p, e = transitionendQuiz p)) es →
       Older.run es w' = w').
Proof.
  intros Hidle Hq Ha Hterm Hearly w'.
  assert (Hw' : Older.idle w'
                ∧ screen (Older.state w') = loading
                ∧ visibleScreen (Older.dom w') = loading
                ∧ ratings (Older.state w')
                  = applyRatingIncrease (ratingIncrease ans) (ratings (Older.state w))
                ∧ summaryText (Older.dom w') = summaryText (Older.dom w)
                ∧ recommendedSlot (Older.dom w') = recommendedSlot (Older.dom w)
                ∧ similarGrid (Older.dom w') = similarGrid (Older.dom w)).
  { subst w'. unfold Older.run.
    destruct Hearly as [-> | ->]; cbn [foldl];
      rewrite (older_finishing_click _ _ _ _ _ Hidle Hq Ha Hterm);
      destruct Hidle as (Hg & Hs & Hl & Ht);
      destruct w as [D idx st g sl ql ts dm]; simpl in Hg, Hs, Hl, Ht; subst g sl ql ts;
      cbv -[applyRatingIncrease]; split_and!; reflexivity. }
  destruct Hw' as (Hi & H1 & H2 & H3 & H4 & H5 & H6). split_and!; try done.
  intros es Hes. induction Hes as [|e es He _ IH]; [done |].
  change (Older.run (e :: es) w') with (Older.run es (Older.step e w')).
  by rewrite (older_idle_ignores e w' Hi He).
Qed.

Lemma older_early_timer_loses_the_results_witness :
  screen (Older.state
            (Older.run (clickStage (Some (answerBtn 1 0))
                          :: [timeout; transitionendStage "opacity";
                              transitionendStage "opacity"])
                       olderQuestion1)) = loading.
Proof.
  edestruct (older_early_timer_loses_the_results olderQuestion1 1 0) as (_ & H & _);
    [by vm_compute | by vm_compute | by vm_compute | reflexivity | by left | exact H].
Defined.

Lemma older_step_current_question_id e w :
  currentQuestionId (Older.state w) = 0 →
  currentQuestionId (Older.state (Older.step e w)) = 0.
Proof.
  intros H0.
  assert (Hup : ∀ u w, currentQuestionId (Older.state w) = 0 →
                       currentQuestionId (Older.state (Older.run_update u w)) = 0).
  { intros u w0 Hw0. destruct u;
      unfold Older.run_update, Older.renderQuestionScreen, Older.showOnly; simpl;
      try destruct (getQuestion _ _); done. }
  destruct e as [| | | |btn|p|p|]; simpl;
    unfold Older.startQuiz, Older.restartQuiz, Older.goToStartScreen,
           Older.transitionTo, Older.stageClick.
  1-4: destruct (Older.isTransitioning w); done.
  - destruct (Older.isTransitioning w) eqn:Hg; [done |].
    destruct btn as [[qid aIndex| | |]|]; try done.
    unfold Older.handleAnswerClick.
    destruct (getQuestion _ _) as [q|]; [| done].
    destruct (js_index _ _) as [ans|]; [| done].
    destruct (nextQuestion ans); simpl;
      unfold Older.fadeQuizContentAndUpdate, Older.transitionTo; simpl;
      repeat case_decide; rewrite ?Hg; done.
  - generalize (Older.stageListeners w). intros ls. revert w H0.
    induction ls as [|l ls IH]; intros w H0; simpl; [done |]. apply IH.
    unfold Older.run_stage_listener. case_decide; [done |].
    destruct l as [u|]; simpl; [| done]. by apply Hup.
  - generalize (Older.quizListeners w). intros ls. revert w H0.
    induction ls as [|l ls IH]; intros w H0; simpl; [done |]. apply IH.
    unfold Older.run_quiz_listener. case_decide; [done |].
    destruct l as [u|]; simpl; [| done]. by apply Hup.
  - destruct (Older.timers w) as [|[] ts]; [done |]. simpl.
    unfold Older.transitionTo. simpl. by destruct (Older.isTransitioning w).
Qed.

(** X17.  In the older variant [state.currentQuestionId] is written by
    [initialState] alone: it is 0 after boot and after every sequence of
    events, whichever question is on the page. *)
Theorem older_current_question_id_stays_0 html json es :
  currentQuestionId (Older.state (Older.run es (Older.init html json))) = 0.
Proof.
  unfold Older.run.
  assert (H : ∀ w, currentQuestionId (Older.state w) = 0 →
                   currentQuestionId (Older.state (foldl (λ w e, Older.step e w) w es)) = 0);
    [| by apply H].
  induction es as [|e es IH]; intros w Hw; [done |]. simpl.
  by apply IH, older_step_current_question_id.
Qed.

Example older_question_1_on_the_page :
  questionText (Older.dom olderQuestion1) = "Second question"
  ∧ currentQuestionId (Older.state olderQuestion1) = 0
  ∧ questionText (dom sampleQuestion1) = "Second question"
  ∧ currentQuestionId (state sampleQuestion1) = 1.
Proof. by vm_compute. Qed.

(** ** The current question id *)

(** X18.  After boot and after every sequence of events,
    [state.currentQuestionId] is 0 or the id of a question of the index: a
    [nextQuestion] that leads nowhere is shown as "Question not found." and
    never becomes the current question id. *)
Theorem current_question_id_is_known html json es :
  let w := run es (init html json) in
  currentQuestionId (state w) = 0
  ∨ is_Some (getQuestion (questionsById w) (currentQuestionId (state w))).
Proof.
  apply (run_invariant
           (λ w, currentQuestionId (state w) = 0
                 ∨ is_Some (getQuestion (questionsById w) (currentQuestionId (state w)))));
    [by left |].
  assert (Hrender : ∀ n w,
            currentQuestionId (state w) = 0
            ∨ is_Some (getQuestion (questionsById w) (currentQuestionId (state w))) →
            currentQuestionId (state (renderQuestionScreen n w)) = 0
            ∨ is_Some (getQuestion (questionsById (renderQuestionScreen n w))
                                   (currentQuestionId (state (renderQuestionScreen n w))))).
  { intros n w Hw. unfold renderQuestionScreen.
    destruct (getQuestion (questionsById w) n) as [q|] eqn:Hq; simpl; [| done].
    right. rewrite Hq. by eexists. }
  apply step_preserves.
  - intros u w Hw. unfold transitionTo. by destruct (isTransitioning w).
  - intros qid aIndex w Hw.
    destruct (handleAnswerClick_frame qid aIndex w) as (_ & -> & ->). done.
  - intros p l w Hw. unfold run_stage_listener. case_decide; [done |].
    destruct l as [[| |next]|]; simpl; [| by left | | done].
    + apply (Hrender 0). by left.
    + by apply (Hrender next).
  - intros p l w Hw. unfold run_quiz_listener. case_decide; [done |].
    destruct l as [[| |next]|]; simpl; [| by left | | done].
    + apply (Hrender 0). by left.
    + by apply (Hrender next).
  - intros [] ts w Hw. done.
Qed.

Lemma loading_screen_is_left_by_the_timer_witness :
  screen (state (step timeout
                   (run [ clickStart; transitionendStage "opacity";
                          transitionendStage "opacity";
                          clickStage (Some (answerBtn 0 1));
                          transitionendQuiz "opacity"; transitionendQuiz "opacity";
                          clickStage (Some (answerBtn 1 0)) ]
                        (init blankPage sampleData)))) = results.
Proof.
  apply (loading_screen_is_left_by_the_timer blankPage sampleData
           [ clickStart; transitionendStage "opacity"; transitionendStage "opacity";
             clickStage (Some (answerBtn 0 1));
             transitionendQuiz "opacity"; transitionendQuiz "opacity";
             clickStage (Some (answerBtn 1 0)) ]).
  by vm_compute.
Defined.
